(** * tools/generate-TorControlCommands.py

    A shallow embedding of the generator script and of the fragment of the
    Python runtime it relies on ([str] methods and the [re] module), followed
    by the properties of the generated text.

    The script reads [control_cmd.c], locates the initializer of
    [CONTROL_COMMANDS] with [re.search], lists its rows with [re.findall] and
    prints one Java constant per row. *)

From Stdlib Require Import String Ascii List NArith Bool Arith Lia Sorted.
Import ListNotations.

(** ** Python strings *)

Module Py.

(** A [str] is a sequence of Unicode code points. *)
Definition char := N.
Definition text := list char.

Definition chr (a : ascii) : char := N_of_ascii a.
Definition str (s : string) : text := map chr (list_ascii_of_string s).
Arguments chr a%_char.
Arguments str s%_string.

(** Characters that cannot be written inside a literal here. *)
Definition nl : char := 10%N.
Definition dquote : char := 34%N.

Definition char_eqb (a b : char) : bool := N.eqb a b.
Arguments char_eqb (a b)%_N.

Fixpoint text_eqb (a b : text) : bool :=
  match a, b with
  | [], [] => true
  | x :: a', y :: b' => char_eqb x y && text_eqb a' b'
  | _, _ => false
  end.

Definition in_range (lo hi c : char) : bool := (lo <=? c)%N && (c <=? hi)%N.
Arguments in_range (lo hi c)%_N.

(** [str.isspace] on one code point; the same table backs [\s] of [re]. *)
Definition isspace (c : char) : bool :=
  in_range 9 13 c || in_range 28 32 c || char_eqb c 133 || char_eqb c 160
  || char_eqb c 5760 || in_range 8192 8202 c || in_range 8232 8233 c
  || char_eqb c 8239 || char_eqb c 8287 || char_eqb c 12288.

(** [s.rstrip()]: drop the trailing whitespace. *)
Fixpoint rstrip (s : text) : text :=
  match s with
  | [] => []
  | c :: s' =>
      match rstrip s' with
      | [] => if isspace c then [] else [c]
      | r => c :: r
      end
  end.

(** [s.upper()].  The script only calls it on a capture of [[a-zA-Z0-9_]+],
    where upper-casing is the ASCII one; other code points are left alone. *)
Definition upper_char (c : char) : char :=
  if in_range (chr "a") (chr "z") c then (c - 32)%N else c.

Definition upper (s : text) : text := map upper_char s.

End Py.

Import Py.

(** ** The fragment of [re] used by the script *)

Module Re.

(** Single-character items of a pattern. *)
Inductive cls :=
| Dot                                   (* [.] without DOTALL *)
| Space                                 (* [\s] *)
| OneOf (ranges : list (char * char))   (* [[...]], also a lone escaped character *)
| NoneOf (ranges : list (char * char)). (* [[^...]] *)

Definition in_ranges (ranges : list (char * char)) (c : char) : bool :=
  existsb (fun r => in_range (fst r) (snd r) c) ranges.

Definition accepts (k : cls) (c : char) : bool :=
  match k with
  | Dot => negb (char_eqb c nl)
  | Space => isspace c
  | OneOf ranges => in_ranges ranges c
  | NoneOf ranges => negb (in_ranges ranges c)
  end.

(** Patterns.  Repetition is only needed over single-character items, and is
    greedy. *)
Inductive regex :=
| Lit (s : text)
| Star (k : cls)
| Plus (k : cls)
| Alt (a b : regex)
| Seq (a b : regex)
| Group (n : nat) (r : regex).

Definition captures := list (nat * text).

Fixpoint lookup (n : nat) (caps : captures) : option text :=
  match caps with
  | [] => None
  | (m, t) :: caps' => if Nat.eqb n m then Some t else lookup n caps'
  end.

Fixpoint strip_prefix (p s : text) : option text :=
  match p, s with
  | [], _ => Some s
  | x :: p', y :: s' => if char_eqb x y then strip_prefix p' s' else None
  | _ :: _, [] => None
  end.

(** The inputs left after [k*], in the order the backtracking matcher tries
    them: longest repetition first. *)
Fixpoint star_ways (k : cls) (s : text) : list text :=
  match s with
  | c :: s' => if accepts k c then star_ways k s' ++ [s] else [s]
  | [] => [[]]
  end.

Definition plus_ways (k : cls) (s : text) : list text :=
  match s with
  | c :: s' => if accepts k c then star_ways k s' else []
  | [] => []
  end.

(** The text consumed between input [s] and its suffix [s']. *)
Definition consumed (s s' : text) : text :=
  firstn (length s - length s') s.

(** [ways r s caps]: every way in which [r] matches a prefix of [s], as the
    remaining input and the captures, listed in the order in which the
    backtracking matcher of [re] explores them.  The matcher stops at the
    first one. *)
Fixpoint ways (r : regex) (s : text) (caps : captures) : list (text * captures) :=
  match r with
  | Lit p =>
      match strip_prefix p s with
      | Some s' => [(s', caps)]
      | None => []
      end
  | Star k => map (fun s' => (s', caps)) (star_ways k s)
  | Plus k => map (fun s' => (s', caps)) (plus_ways k s)
  | Alt a b => ways a s caps ++ ways b s caps
  | Seq a b => flat_map (fun w => ways b (fst w) (snd w)) (ways a s caps)
  | Group n a =>
      map (fun w => (fst w, (n, consumed s (fst w)) :: snd w)) (ways a s caps)
  end.

(** [pattern.match] anchored at the head of [s]: length of the match and its
    captures. *)
Definition match_at (r : regex) (s : text) : option (nat * captures) :=
  match ways r s [] with
  | (s', caps) :: _ => Some (length s - length s', caps)
  | [] => None
  end.

Record match_obj := MatchObj {
  m_start : nat;
  m_end : nat;
  m_caps : captures
}.

(** [m.group(n)]: [None] for a group that took no part in the match. *)
Definition group (m : match_obj) (n : nat) : option text := lookup n (m_caps m).

(** [re.search]: the match at the leftmost position that has one. *)
Fixpoint search_from (r : regex) (s : text) (pos : nat) : option match_obj :=
  match match_at r s with
  | Some (len, caps) => Some (MatchObj pos (pos + len) caps)
  | None =>
      match s with
      | [] => None
      | _ :: s' => search_from r s' (S pos)
      end
  end.

Definition search (r : regex) (s : text) : option match_obj := search_from r s 0.

(** [re.finditer]: successive non-overlapping matches, left to right.
    [skip] counts the characters of the previous match still to pass.  After
    an empty match [re] would also try a non-empty one at the same position;
    the pattern given to [findall] by the script never matches the empty
    string (see [ROW_match_nonempty] below). *)
Fixpoint finditer_from (r : regex) (s : text) (pos skip : nat) : list match_obj :=
  match skip with
  | S k =>
      match s with
      | [] => []
      | _ :: s' => finditer_from r s' (S pos) k
      end
  | O =>
      match match_at r s with
      | Some (len, caps) =>
          MatchObj pos (pos + len) caps ::
          match s with
          | [] => []
          | _ :: s' => finditer_from r s' (S pos) (pred len)
          end
      | None =>
          match s with
          | [] => []
          | _ :: s' => finditer_from r s' (S pos) 0
          end
      end
  end.

Definition finditer (r : regex) (s : text) : list match_obj := finditer_from r s 0 0.

(** [re.findall] for a pattern with two groups: the pairs of captured texts,
    the empty string standing for a group that took no part. *)
Definition groups2 (m : match_obj) : text * text :=
  (match group m 1 with Some t => t | None => [] end,
   match group m 2 with Some t => t | None => [] end).

Definition findall (r : regex) (s : text) : list (text * text) :=
  map groups2 (finditer r s).

End Re.

Import Re.

(** ** The script *)

(** [r'control_cmd_def_t CONTROL_COMMANDS\[]\s*=\s*{\n*([^}]+)}'].  The flag
    [re.MULTILINE] given to [re.search] only changes the anchors, and the
    pattern has none. *)
Definition TABLE : regex :=
  Seq (Lit (str "control_cmd_def_t CONTROL_COMMANDS[]"))
 (Seq (Star Space)
 (Seq (Lit (str "="))
 (Seq (Star Space)
 (Seq (Lit (str "{"))
 (Seq (Star (OneOf [(nl, nl)]))
 (Seq (Group 1 (Plus (NoneOf [(chr "}", chr "}")])))
      (Lit (str "}")))))))).

Definition IDENT : cls :=
  OneOf [(chr "a", chr "z"); (chr "A", chr "Z"); (chr "0", chr "9"); (chr "_", chr "_")].

Definition TAGS : regex :=
  Alt (Lit (str "MULTLINE")) (Alt (Lit (str "OBSOLETE")) (Lit (str "ONE_LINE"))).

(** [r'.*(MULTLINE|OBSOLETE|ONE_LINE)\(([a-zA-Z0-9_]+).*'] *)
Definition ROW : regex :=
  Seq (Star Dot)
 (Seq (Group 1 TAGS)
 (Seq (Lit (str "("))
 (Seq (Group 2 (Plus IDENT))
      (Star Dot)))).

(** Exceptions the script can end with. *)
Inductive exception :=
| OSError          (* [open] failed; [IOError] is the same class *)
| AttributeError.  (* attribute looked up on [None] *)

Definition exception_name (e : exception) : string :=
  match e with
  | OSError => "OSError"
  | AttributeError => "AttributeError"
  end.

Inductive outcome (A : Type) :=
| Returned (a : A)
| Raised (e : exception).
Arguments Returned {A} a.
Arguments Raised {A} e.

(** Computations of the script: they may raise, and they extend what has been
    written to standard output. *)
Definition M (A : Type) : Type := text -> outcome A * text.

Definition ret {A} (a : A) : M A := fun out => (Returned a, out).
Definition raise {A} (e : exception) : M A := fun out => (Raised e, out).
Definition bind {A B} (c : M A) (f : A -> M B) : M B :=
  fun out =>
    match c out with
    | (Returned a, out') => f a out'
    | (Raised e, out') => (Raised e, out')
    end.

Notation "x <- c ;; f" := (bind c (fun x => f))
  (at level 61, c at next level, right associativity).

(** [print(x)]: the text and a newline go to standard output. *)
Definition print (x : text) : M unit := fun out => (Returned tt, out ++ x ++ [nl]).

(** What [open] finds at ['../tor/src/feature/control/control_cmd.c']: a file
    whose text [fp.read()] returns, or nothing that can be opened. *)
Inductive source_file :=
| Readable (contents : text)
| Unreadable.

(** [open(...)] followed by [fp.read()]. *)
Definition open_read (f : source_file) : M text :=
  match f with
  | Readable contents => ret contents
  | Unreadable => raise OSError
  end.

(** [m.group(1)] on the result of [re.search]; [None] has no attribute
    [group], and a [None] group no attribute [rstrip]. *)
Definition group1 (m : option match_obj) : M text :=
  match m with
  | None => raise AttributeError
  | Some mo =>
      match group mo 1 with
      | Some t => ret t
      | None => raise AttributeError
      end
  end.

(** The two module-level lists filled by the first loop. *)
Record tables := Tables {
  commands : list text;
  command_types : list (text * text)
}.

Definition append_row (t : tables) (row : text * text) : tables :=
  let (type, command) := row in
  Tables (commands t ++ [upper command])
         (command_types t ++ [(type, upper command)]).

(** Body of the [with] block. *)
Definition extract (contents : text) : M tables :=
  g <- group1 (search TABLE contents) ;;
  let control_cmd_def_t := rstrip g in
  ret (fold_left append_row (findall ROW control_cmd_def_t) (Tables [] [])).

(** ['    public static final String %s = "%s";\n'], with [prefix] before the
    second [%s]. *)
Definition declaration (prefix command : text) : text :=
  str "    public static final String " ++ command ++ str " = " ++ [dquote]
  ++ prefix ++ command ++ [dquote] ++ str ";" ++ [nl].

(** Body of the second loop. *)
Definition emit (output : text) (entry : text * text) : text :=
  let (type, command) := entry in
  let output :=
    if text_eqb type (str "OBSOLETE")
    then output ++ str "    @Deprecated" ++ [nl]
    else output in
  if text_eqb type (str "MULTLINE")
  then output ++ declaration (str "+") command
  else output ++ declaration [] command.

(** The initial value of [output]; [file] is [__file__]. *)
Definition header (file : text) : text :=
  [nl] ++ str "    // generated by " ++ file ++ [nl].

Definition main (file : text) (src : source_file) : M unit :=
  let output := header file in
  contents <- open_read src ;;
  t <- extract contents ;;
  let output := fold_left emit (command_types t) output in
  print output.

(** One run of the script: how it ends and what it wrote to standard
    output. *)
Definition run (file : text) (src : source_file) : outcome unit * text :=
  main file src [].

(** ** Notions used in the statements *)

(** [sub in s] *)
Fixpoint contains (sub s : text) : bool :=
  match strip_prefix sub s with
  | Some _ => true
  | None =>
      match s with
      | [] => false
      | _ :: s' => contains sub s'
      end
  end.

(** [stops k s]: a repetition of [k] cannot go on into [s]. *)
Definition stops (k : cls) (s : text) : bool :=
  match s with
  | [] => true
  | c :: _ => negb (accepts k c)
  end.

Definition lit_free (p : text) : bool := forallb (fun c => negb (char_eqb c nl)) p.

Fixpoint nl_free (r : regex) : bool :=
  match r with
  | Lit p => lit_free p
  | Star k | Plus k => negb (accepts k nl)
  | Alt a b | Seq a b => nl_free a && nl_free b
  | Group _ a => nl_free a
  end.

Definition extend (t : text) (w : text * captures) : text * captures :=
  (fst w ++ t, snd w).

(** Matches are reported left to right and do not overlap. *)
Definition before (a b : match_obj) : Prop :=
  m_start a < m_start b /\ m_end a <= m_start b.

Definition tags : list text := [str "MULTLINE"; str "OBSOLETE"; str "ONE_LINE"].

(** The part of [ROW] after its leading [.*]. *)
Definition ENTRY : regex :=
  Seq (Group 1 TAGS)
 (Seq (Lit (str "("))
 (Seq (Group 2 (Plus IDENT))
      (Star Dot))).

(** An entry starts at the head of [s]: a recognised tag, a parenthesis and an
    identifier character. *)
Definition entry_start (s : text) : bool :=
  existsb (fun t =>
             match strip_prefix (t ++ str "(") s with
             | Some (c :: _) => accepts IDENT c
             | _ => false
             end)
          tags.

(** An entry starts somewhere in [s]. *)
Fixpoint has_entry (s : text) : bool :=
  entry_start s
  || match s with
     | [] => false
     | _ :: s' => has_entry s'
     end.

Definition no_entry_in (s : text) : Prop := has_entry s = false.

(** The text captured by group 1 of [TABLE], when the search succeeds. *)
Definition captured (contents : text) : option text :=
  match search TABLE contents with
  | Some m => group m 1
  | None => None
  end.

(** A row as the first loop stores it. *)
Definition upper_row (row : text * text) : text * text :=
  (fst row, upper (snd row)).

(** Lines joined by newlines. *)
Fixpoint join_lines (ls : list text) : text :=
  match ls with
  | [] => []
  | [l] => l
  | l :: ls' => l ++ nl :: join_lines ls'
  end.

(** A Java constant [name] with string value [value], on one line. *)
Definition java_const (name value : text) : text :=
  str "    public static final String " ++ name ++ str " = "
  ++ [dquote] ++ value ++ [dquote] ++ str ";" ++ [nl].

(** The line that marks the next constant as deprecated. *)
Definition deprecated_marker : text := str "    @Deprecated" ++ [nl].

(** The provenance line, after the newline that opens the text. *)
Definition generated_by (file : text) : text :=
  [nl] ++ str "    // generated by " ++ file ++ [nl].

(** A source file holding the three rows of the scenario. *)
Definition scenario_source : text :=
  join_lines
    [ str "static const control_cmd_def_t CONTROL_COMMANDS[] =";
      str "{";
      str "  ONE_LINE(GETINFO),";
      str "  MULTLINE(GETCONF),";
      str "  OBSOLETE(POSTDESCRIPTOR),";
      str "};" ].

Definition scenario_table : text :=
  join_lines
    [ str "  ONE_LINE(GETINFO),";
      str "  MULTLINE(GETCONF),";
      str "  OBSOLETE(POSTDESCRIPTOR),";
      [] ].

(** The lines written for one row of the table. *)
Definition row_lines (row : text * text) : text :=
  (if text_eqb (fst row) (str "OBSOLETE") then deprecated_marker else [])
  ++ java_const (upper (snd row))
       ((if text_eqb (fst row) (str "MULTLINE") then str "+" else [])
        ++ upper (snd row)).

(** The line [pre tag ( ident rest]: it holds no newline, [tag] is one of the
    recognised tags, [ident] is a non-empty run of identifier characters that
    ends where [rest] starts, and no entry starts after the first character
    of [tag]. *)
Definition entry_line (pre tag ident rest : text) : bool :=
  forallb (accepts Dot) pre
  && existsb (text_eqb tag) tags
  && match ident with [] => false | _ :: _ => true end
  && forallb (accepts IDENT) ident
  && stops IDENT rest
  && forallb (accepts Dot) rest
  && negb (has_entry (tl (tag ++ str "(" ++ ident ++ rest))).

(** A source file without the table. *)
Definition missing_source : text :=
  join_lines
    [ str "#include <stdio.h>";
      str "int main(void) { return 0; }" ].

(** Upper-case letters, digits and the underscore. *)
Definition UPPER_IDENT : cls :=
  OneOf [(chr "A", chr "Z"); (chr "0", chr "9"); (chr "_", chr "_")].

(** A source file written as the table is in Tor: lower-case names and further
    arguments. *)
Definition tor_source : text :=
  join_lines
    [ str "static const control_cmd_def_t CONTROL_COMMANDS[] =";
      str "{";
      str "  ONE_LINE(getinfo, 0),";
      str "  MULTLINE(loadconf, 0),";
      str "  OBSOLETE(usefeature),";
      str "};" ].

Definition tor_table : text :=
  join_lines
    [ str "  ONE_LINE(getinfo, 0),";
      str "  MULTLINE(loadconf, 0),";
      str "  OBSOLETE(usefeature),";
      [] ].



(** A table in which a command is listed twice, and once more under another
    tag. *)
Definition duplicated_source : text :=
  join_lines
    [ str "static const control_cmd_def_t CONTROL_COMMANDS[] =";
      str "{";
      str "  ONE_LINE(getinfo, 0),";
      str "  MULTLINE(loadconf, 0),";
      str "  ONE_LINE(getinfo, 0),";
      str "  OBSOLETE(getinfo),";
      str "};" ].

(** ** Notions used in the further properties *)

(** The first way of matching, which is the one [re] reports. *)
Definition first_way (r : regex) (s : text) (caps : captures) : option (text * captures) :=
  hd_error (ways r s caps).

(** The pieces of [TABLE]. *)
Definition DECLARATION : text := str "control_cmd_def_t CONTROL_COMMANDS[]".

Definition NEWLINE : cls := OneOf [(nl, nl)].

Definition NOT_BRACE : cls := NoneOf [(chr "}", chr "}")].

(** A source text in which the declaration of the table, an equals sign and a
    pair of braces around [body] stand between [above] and [below]. *)
Definition source_with_table (above ws1 ws2 body below : text) : text :=
  above ++ DECLARATION ++ ws1 ++ str "=" ++ ws2 ++ str "{" ++ body ++ str "}" ++ below.

(** No declaration of the table starts inside [above], when the declaration
    follows it. *)
Definition first_declaration (above : text) : bool :=
  negb (contains DECLARATION (above ++ removelast DECLARATION)).

(** No declaration of the table starts inside [s] after its first character. *)
Definition last_declaration (s : text) : bool :=
  negb (contains DECLARATION (tl s)).

(** [table] is not empty and does not start with a newline. *)
Definition starts_row (table : text) : bool :=
  match table with
  | [] => false
  | c :: _ => negb (accepts NEWLINE c)
  end.

(** White space around the equals sign, newlines after the opening brace,
    then a table without a closing brace. *)
Definition table_layout (above ws1 ws2 nls table : text) : bool :=
  first_declaration above
  && forallb isspace ws1 && forallb isspace ws2
  && forallb (accepts NEWLINE) nls
  && starts_row table
  && forallb (accepts NOT_BRACE) table.

(** Characters that are neither white space nor controls. *)
Definition printable (c : char) : bool := in_range 33 132 c.

(** A source file with an entry above the table, white space of several kinds
    in the declaration, and entries after the closing brace. *)
Definition layout_source : text :=
  source_with_table
    (join_lines [str "/* ONE_LINE(above) */"; str "static const "])
    [nl] [chr " "; 160%N]
    ([nl; nl]
     ++ join_lines [str "  ONE_LINE(getinfo, 0),"; str "  MULTLINE(loadconf, 0),"; []])
    (join_lines [str ";"; str "static const x_t OTHER[] = {"; str "  ONE_LINE(below)"; str "};"]).

(** ** The script, statement by statement *)








(** ** Facts about the string operations *)

Lemma char_eqb_eq (a b : char) : char_eqb a b = true <-> a = b.
Proof. apply N.eqb_eq. Qed.

Lemma char_eqb_refl (a : char) : char_eqb a a = true.
Proof. apply N.eqb_refl. Qed.

Lemma text_eqb_eq (a b : text) : text_eqb a b = true <-> a = b.
Proof.
  revert b; induction a as [|x a IH]; intros [|y b]; simpl; try easy.
  rewrite andb_true_iff, char_eqb_eq, IH.
  split; [intros [-> ->]; reflexivity | intros H; injection H; auto].
Qed.

Lemma text_eqb_refl (a : text) : text_eqb a a = true.
Proof. now apply text_eqb_eq. Qed.

Lemma strip_prefix_Some (p s s' : text) :
  strip_prefix p s = Some s' <-> s = p ++ s'.
Proof.
  revert s; induction p as [|x p IH]; intros s; simpl.
  - split; [intros [= ->] | intros ->]; reflexivity.
  - destruct s as [|y s]; [easy|].
    destruct (char_eqb x y) eqn:E.
    + apply char_eqb_eq in E; subst y. rewrite IH.
      split; [intros ->; reflexivity | intros [= ->]; reflexivity].
    + split; [easy|]. intros [= <- _]. now rewrite char_eqb_refl in E.
Qed.

Lemma strip_prefix_app (p s : text) : strip_prefix p (p ++ s) = Some s.
Proof. now apply strip_prefix_Some. Qed.

Lemma consumed_app (u s : text) : consumed (u ++ s) s = u.
Proof.
  unfold consumed. rewrite length_app.
  replace (length u + length s - length s) with (length u) by lia.
  rewrite firstn_app, firstn_all, Nat.sub_diag. simpl. apply app_nil_r.
Qed.

Lemma upper_char_idem (c : char) : upper_char (upper_char c) = upper_char c.
Proof.
  unfold upper_char, in_range, chr. simpl.
  destruct ((97 <=? c)%N && (c <=? 122)%N) eqn:E; [|now rewrite E].
  apply andb_true_iff in E as [E1 E2].
  apply N.leb_le in E1, E2.
  destruct (97 <=? c - 32)%N eqn:E3; [|reflexivity].
  apply N.leb_le in E3. exfalso. lia.
Qed.

Lemma upper_idem (s : text) : upper (upper s) = upper s.
Proof.
  unfold upper. rewrite map_map. apply map_ext. intros; apply upper_char_idem.
Qed.

Lemma upper_length (s : text) : length (upper s) = length s.
Proof. apply length_map. Qed.

(** [rstrip] cuts a run of white space off the end. *)
Lemma rstrip_spec (s : text) :
  exists ws, s = rstrip s ++ ws /\ forallb isspace ws = true.
Proof.
  induction s as [|c s (ws & Hs & Hws)]; [now exists []|].
  simpl. destruct (rstrip s) as [|d r] eqn:E.
  - simpl in Hs. subst s. destruct (isspace c) eqn:Hc.
    + exists (c :: ws). simpl. now rewrite Hc.
    + now exists ws.
  - exists ws. split; [|assumption]. simpl. now rewrite Hs at 1.
Qed.

Lemma contains_false (sub s : text) :
  contains sub s = false -> forall u v, s <> u ++ sub ++ v.
Proof.
  induction s as [|c s IH]; simpl.
  - destruct (strip_prefix sub []) eqn:E; [easy|]. intros _ u v H.
    destruct u; simpl in H.
    + apply strip_prefix_Some in H. congruence.
    + discriminate.
  - destruct (strip_prefix sub (c :: s)) eqn:E; [easy|]. intros Hc u v H.
    destruct u as [|d u]; simpl in H.
    + apply strip_prefix_Some in H. congruence.
    + injection H as -> ->. now apply (IH Hc u v).
Qed.

(** ** Facts about the matcher *)

Module ReFacts.

Lemma star_ways_In (k : cls) (s s' : text) :
  In s' (star_ways k s) ->
  exists u, s = u ++ s' /\ forallb (accepts k) u = true.
Proof.
  induction s as [|c s IH]; simpl.
  - intros [<-|[]]. now exists [].
  - destruct (accepts k c) eqn:E.
    + rewrite in_app_iff. intros [H|[<-|[]]].
      * destruct (IH H) as (u & -> & Hu). exists (c :: u). simpl. now rewrite E.
      * now exists [].
    + intros [<-|[]]. now exists [].
Qed.

Lemma plus_ways_In (k : cls) (s s' : text) :
  In s' (plus_ways k s) ->
  exists u, s = u ++ s' /\ u <> [] /\ forallb (accepts k) u = true.
Proof.
  destruct s as [|c s]; simpl; [easy|].
  destruct (accepts k c) eqn:E; [|easy].
  intros H. apply star_ways_In in H as (u & -> & Hu).
  exists (c :: u). simpl. now rewrite E.
Qed.

(** The greedy repetition first tries the whole run. *)
Lemma star_ways_hd (k : cls) (u s : text) :
  forallb (accepts k) u = true -> stops k s = true ->
  exists others, star_ways k (u ++ s) = s :: others.
Proof.
  intros Hu Hs. induction u as [|c u IH]; simpl in *.
  - destruct s as [|d s]; simpl in *; [now exists []|].
    apply negb_true_iff in Hs. rewrite Hs. now exists [].
  - apply andb_true_iff in Hu as [-> Hu].
    destruct (IH Hu) as (others & ->). now eexists.
Qed.

Lemma plus_ways_hd (k : cls) (u s : text) :
  u <> [] -> forallb (accepts k) u = true -> stops k s = true ->
  exists others, plus_ways k (u ++ s) = s :: others.
Proof.
  intros Hne Hu Hs. destruct u as [|c u]; [easy|]. simpl in *.
  apply andb_true_iff in Hu as [-> Hu]. now apply star_ways_hd.
Qed.


(** Every way of matching leaves a suffix of the input. *)
Lemma ways_suffix (r : regex) :
  forall s caps s' caps', In (s', caps') (ways r s caps) -> exists u, s = u ++ s'.
Proof.
  induction r as [p|k|k|a IHa b IHb|a IHa b IHb|n a IHa]; intros s caps s' caps'; simpl.
  - destruct (strip_prefix p s) eqn:E; [|easy].
    intros [[= <- <-]|[]]. apply strip_prefix_Some in E. now exists p.
  - rewrite in_map_iff. intros (x & [= <- <-] & H).
    apply star_ways_In in H as (u & -> & _). now exists u.
  - rewrite in_map_iff. intros (x & [= <- <-] & H).
    apply plus_ways_In in H as (u & -> & _). now exists u.
  - rewrite in_app_iff. intros [H|H]; eauto.
  - rewrite in_flat_map. intros ([s1 c1] & H1 & H2). simpl in H2.
    apply IHa in H1 as (u & ->). apply IHb in H2 as (v & ->).
    exists (u ++ v). now rewrite app_assoc.
  - rewrite in_map_iff. intros ([s1 c1] & [= <- <-] & H). eauto.
Qed.

Lemma match_at_Some (r : regex) (s : text) (len : nat) (caps : captures) :
  match_at r s = Some (len, caps) ->
  exists s', In (s', caps) (ways r s []) /\ len = length s - length s'.
Proof.
  unfold match_at. destruct (ways r s []) as [|[s' c] l]; [easy|].
  intros [= <- <-]. exists s'. split; [now left | reflexivity].
Qed.

Lemma match_at_None (r : regex) (s : text) :
  match_at r s = None <-> ways r s [] = [].
Proof.
  unfold match_at. destruct (ways r s []) as [|[s' c] l]; split; easy.
Qed.

Lemma match_at_length (r : regex) (s : text) (len : nat) (caps : captures) :
  match_at r s = Some (len, caps) -> len <= length s.
Proof. intros H. apply match_at_Some in H as (s' & _ & ->). lia. Qed.

(** *** Patterns that cannot consume a newline *)

Lemma strip_prefix_line (p u t : text) :
  lit_free p = true ->
  strip_prefix p (u ++ nl :: t) = option_map (fun s' => s' ++ nl :: t) (strip_prefix p u).
Proof.
  revert u; induction p as [|x p IH]; intros u Hp; simpl in *; [reflexivity|].
  apply andb_true_iff in Hp as [Hx Hp].
  destruct u as [|y u]; simpl.
  - now rewrite (negb_true_iff _) in Hx; rewrite Hx.
  - destruct (char_eqb x y); [now apply IH | reflexivity].
Qed.

Lemma star_ways_line (k : cls) (u t : text) :
  accepts k nl = false ->
  star_ways k (u ++ nl :: t) = map (fun s' => s' ++ nl :: t) (star_ways k u).
Proof.
  intros Hk. induction u as [|c u IH]; simpl.
  - now rewrite Hk.
  - destruct (accepts k c); [|reflexivity].
    now rewrite IH, map_app.
Qed.

Lemma plus_ways_line (k : cls) (u t : text) :
  accepts k nl = false ->
  plus_ways k (u ++ nl :: t) = map (fun s' => s' ++ nl :: t) (plus_ways k u).
Proof.
  intros Hk. destruct u as [|c u]; simpl.
  - now rewrite Hk.
  - destruct (accepts k c); [now apply star_ways_line | reflexivity].
Qed.

(** Such a pattern matches the same way whatever follows the end of the
    line. *)
Lemma ways_line (r : regex) (t : text) :
  nl_free r = true ->
  forall u caps,
    ways r (u ++ nl :: t) caps = map (extend (nl :: t)) (ways r u caps).
Proof.
  induction r as [p|k|k|a IHa b IHb|a IHa b IHb|n a IHa]; simpl; intros Hr u caps.
  - rewrite strip_prefix_line by assumption.
    now destruct (strip_prefix p u).
  - apply negb_true_iff in Hr. rewrite star_ways_line, !map_map by assumption.
    reflexivity.
  - apply negb_true_iff in Hr. rewrite plus_ways_line, !map_map by assumption.
    reflexivity.
  - apply andb_true_iff in Hr as [Ha Hb].
    now rewrite IHa, IHb, map_app.
  - apply andb_true_iff in Hr as [Ha Hb].
    rewrite IHa by assumption.
    induction (ways a u caps) as [|[s1 c1] l IHl]; simpl; [reflexivity|].
    now rewrite map_app, IHl, IHb.
  - rewrite IHa, !map_map by assumption. apply map_ext_in.
    intros [s1 c1] Hin. unfold extend. simpl.
    apply ways_suffix in Hin as (v & ->).
    rewrite <- app_assoc. now rewrite !consumed_app.
Qed.

Lemma match_at_line (r : regex) (u t : text) :
  nl_free r = true -> match_at r (u ++ nl :: t) = match_at r u.
Proof.
  intros Hr. unfold match_at. rewrite ways_line by assumption.
  destruct (ways r u []) as [|[s' c] l] eqn:E; simpl; [reflexivity|].
  rewrite !length_app. f_equal. f_equal.
  assert (In (s', c) (ways r u [])) as H by (rewrite E; now left).
  apply ways_suffix in H as (v & ->). rewrite length_app. lia.
Qed.

End ReFacts.

Import ReFacts.

(** ** Facts about scanning *)

Section Scanning.

Variable r : regex.

Lemma finditer_from_bounds (s : text) :
  forall pos skip,
    Forall (fun m => pos + skip <= m_start m /\ m_start m <= m_end m)
           (finditer_from r s pos skip).
Proof.
  induction s as [|c s IH]; intros pos skip; simpl.
  - destruct skip; [|constructor].
    destruct (match_at r []) as [[len caps]|]; constructor; simpl; [lia|constructor].
  - destruct skip as [|k].
    + destruct (match_at r (c :: s)) as [[len caps]|].
      * constructor; simpl; [lia|].
        eapply Forall_impl; [|apply IH]. simpl. intros m. lia.
      * eapply Forall_impl; [|apply IH]. simpl. intros m. lia.
    + eapply Forall_impl; [|apply IH]. simpl. intros m. lia.
Qed.

Lemma finditer_from_sorted (s : text) :
  forall pos skip, StronglySorted before (finditer_from r s pos skip).
Proof.
  induction s as [|c s IH]; intros pos skip; simpl.
  - destruct skip; [|constructor].
    destruct (match_at r []) as [[len caps]|]; repeat constructor.
  - destruct skip as [|k]; [|apply IH].
    destruct (match_at r (c :: s)) as [[len caps]|]; [|apply IH].
    constructor; [apply IH|].
    eapply Forall_impl; [|apply finditer_from_bounds].
    unfold before. simpl. intros m. lia.
Qed.

(** Each reported match is the one the matcher finds at its start. *)
Lemma finditer_from_genuine (s : text) :
  forall pos skip,
    Forall (fun m => match_at r (skipn (m_start m - pos) s)
                     = Some (m_end m - m_start m, m_caps m))
           (finditer_from r s pos skip).
Proof.
  induction s as [|c s IH]; intros pos skip; simpl.
  - destruct skip; [|constructor].
    destruct (match_at r []) as [[len caps]|] eqn:E; constructor; simpl; [|constructor].
    rewrite Nat.sub_diag. simpl. rewrite E. do 2 f_equal. lia.
  - assert (forall k, Forall (fun m => match_at r (skipn (m_start m - pos) (c :: s))
                     = Some (m_end m - m_start m, m_caps m))
           (finditer_from r s (S pos) k)) as Hrest.
    { intros k. apply Forall_forall. intros m Hm.
      pose proof (finditer_from_bounds s (S pos) k) as Hb.
      rewrite Forall_forall in Hb. specialize (Hb m Hm).
      specialize (IH (S pos) k). rewrite Forall_forall in IH. specialize (IH m Hm).
      replace (m_start m - pos) with (S (m_start m - S pos)) by lia.
      exact IH. }
    destruct skip as [|k]; [|apply Hrest].
    destruct (match_at r (c :: s)) as [[len caps]|] eqn:E; [|apply Hrest].
    constructor; [|apply Hrest]. simpl.
    rewrite Nat.sub_diag. simpl. rewrite E. do 2 f_equal. lia.
Qed.

(** The captures do not depend on the offset at which counting starts. *)
Lemma finditer_from_caps (s : text) :
  forall pos pos' skip,
    map m_caps (finditer_from r s pos skip) = map m_caps (finditer_from r s pos' skip).
Proof.
  induction s as [|c s IH]; intros pos pos' skip; simpl.
  - destruct skip; [|reflexivity].
    now destruct (match_at r []) as [[len caps]|].
  - destruct skip as [|k]; [|apply IH].
    destruct (match_at r (c :: s)) as [[len caps]|]; simpl; [f_equal|]; apply IH.
Qed.

Hypothesis r_nl_free : nl_free r = true.
Hypothesis r_nonempty : match_at r [] = None.

Lemma match_at_newline (t : text) : match_at r (nl :: t) = None.
Proof. rewrite <- r_nonempty. exact (match_at_line r [] t r_nl_free). Qed.

Lemma finditer_from_skip_all (s : text) :
  forall pos skip, length s <= skip -> finditer_from r s pos skip = [].
Proof.
  induction s as [|c s IH]; intros pos skip Hs; simpl in *.
  - destruct skip; [now rewrite r_nonempty | reflexivity].
  - destruct skip as [|k]; [lia|]. apply IH. lia.
Qed.

(** Scanning treats the lines of the text one after the other. *)
Lemma finditer_from_lines (a b : text) :
  forall pos skip,
    skip <= length a ->
    finditer_from r (a ++ nl :: b) pos skip
    = finditer_from r a pos skip ++ finditer_from r b (pos + length a + 1) 0.
Proof.
  induction a as [|c a IH]; intros pos skip Hs; simpl in *.
  - destruct skip; [|lia].
    rewrite match_at_newline, r_nonempty. simpl.
    f_equal. lia.
  - destruct skip as [|k].
    + change (c :: a ++ nl :: b) with ((c :: a) ++ nl :: b).
      rewrite match_at_line by assumption.
      destruct (match_at r (c :: a)) as [[len caps]|] eqn:E.
      * simpl. f_equal. rewrite IH.
        -- f_equal. f_equal. lia.
        -- apply match_at_length in E. simpl in E. lia.
      * rewrite IH by lia. f_equal. f_equal. lia.
    + rewrite IH by lia. f_equal. f_equal. lia.
Qed.

End Scanning.

Lemma findall_caps (r : regex) (s : text) (pos skip : nat) :
  map groups2 (finditer_from r s pos skip) = map groups2 (finditer_from r s 0 skip).
Proof.
  assert (forall l l' : list match_obj,
             map m_caps l = map m_caps l' -> map groups2 l = map groups2 l') as H.
  { induction l as [|m l IH]; intros [|m' l']; simpl; try easy.
    intros [= Hm Hl]. f_equal; [|now apply IH].
    unfold groups2, group. now rewrite Hm. }
  apply H, finditer_from_caps.
Qed.

Lemma findall_lines (r : regex) (a b : text) :
  nl_free r = true -> match_at r [] = None ->
  findall r (a ++ nl :: b) = findall r a ++ findall r b.
Proof.
  intros Hr Hn. unfold findall, finditer.
  rewrite finditer_from_lines by (assumption || lia).
  rewrite map_app. f_equal. apply findall_caps.
Qed.

(** ** The row pattern *)

Lemma ROW_unfold : ROW = Seq (Star Dot) ENTRY.
Proof. reflexivity. Qed.

Lemma ROW_nl_free : nl_free ROW = true.
Proof. reflexivity. Qed.

Lemma ROW_match_nil : match_at ROW [] = None.
Proof. reflexivity. Qed.

Lemma flat_map_nil {A B} (f : A -> list B) (l : list A) :
  (forall x, In x l -> f x = []) -> flat_map f l = [].
Proof.
  induction l as [|x l IH]; simpl; intros H; [reflexivity|].
  rewrite (H x) by now left. apply IH. intros y Hy. apply H. now right.
Qed.

Lemma ways_Seq_single (a b : regex) (s : text) (c : captures) (w : text * captures) :
  ways a s c = [w] -> ways (Seq a b) s c = ways b (fst w) (snd w).
Proof. simpl. intros ->. simpl. apply app_nil_r. Qed.

Lemma ways_Seq_hd (a b : regex) (s : text) (c : captures)
      (w w' : text * captures) (l l' : list (text * captures)) :
  ways a s c = w :: l -> ways b (fst w) (snd w) = w' :: l' ->
  exists others, ways (Seq a b) s c = w' :: others.
Proof. simpl. intros -> . simpl. intros ->. simpl. now eexists. Qed.

Lemma ways_TAGS (tag s : text) (c : captures) :
  In tag tags -> ways TAGS (tag ++ s) c = [(s, c)].
Proof.
  unfold tags, TAGS. intros [<-|[<-|[<-|[]]]]; cbn [ways].
  - rewrite strip_prefix_app.
    change (strip_prefix (str "OBSOLETE") (str "MULTLINE" ++ s)) with (@None text).
    change (strip_prefix (str "ONE_LINE") (str "MULTLINE" ++ s)) with (@None text).
    reflexivity.
  - rewrite strip_prefix_app.
    change (strip_prefix (str "MULTLINE") (str "OBSOLETE" ++ s)) with (@None text).
    change (strip_prefix (str "ONE_LINE") (str "OBSOLETE" ++ s)) with (@None text).
    reflexivity.
  - rewrite strip_prefix_app.
    change (strip_prefix (str "MULTLINE") (str "ONE_LINE" ++ s)) with (@None text).
    change (strip_prefix (str "OBSOLETE") (str "ONE_LINE" ++ s)) with (@None text).
    reflexivity.
Qed.

Lemma ways_TAGS_In (s s' : text) (c c' : captures) :
  In (s', c') (ways TAGS s c) -> exists tag, In tag tags /\ s = tag ++ s' /\ c' = c.
Proof.
  unfold TAGS, tags. cbn [ways]. rewrite !in_app_iff.
  intros [H|[H|H]];
    match type of H with
    | In _ (match strip_prefix ?p s with _ => _ end) =>
        destruct (strip_prefix p s) as [x|] eqn:E; [|easy];
        destruct H as [[= <- <-]|[]]; apply strip_prefix_Some in E;
        exists p; simpl; auto
    end.
Qed.

(** Every way of matching [ENTRY] reads a tag, a parenthesis and a run of
    identifier characters, then the rest of the line. *)
Lemma ENTRY_ways_shape (s s' : text) (c c' : captures) :
  In (s', c') (ways ENTRY s c) ->
  exists tag ident rest,
    s = tag ++ str "(" ++ ident ++ rest ++ s' /\
    In tag tags /\ ident <> [] /\ forallb (accepts IDENT) ident = true /\
    forallb (accepts Dot) rest = true /\
    c' = (2, ident) :: (1, tag) :: c.
Proof.
  unfold ENTRY. cbn [ways].
  rewrite in_flat_map. intros ([s1 c1] & H1 & H).
  rewrite in_map_iff in H1. destruct H1 as ([s1' c1'] & [= <- <-] & H1).
  apply ways_TAGS_In in H1 as (tag & Htag & -> & ->). simpl fst in *. simpl snd in *.
  rewrite consumed_app in H.
  rewrite in_flat_map in H. destruct H as ([s2 c2] & H2 & H).
  destruct (strip_prefix (str "(") s1') as [x|] eqn:E2; [|easy].
  destruct H2 as [[= <- <-]|[]]. apply strip_prefix_Some in E2. subst s1'.
  simpl fst in *. simpl snd in *.
  rewrite in_flat_map in H. destruct H as ([s3 c3] & H3 & H).
  rewrite in_map_iff in H3. destruct H3 as ([s3' c3'] & [= <- <-] & H3).
  rewrite in_map_iff in H3. destruct H3 as (y & [= <- <-] & H3).
  apply plus_ways_In in H3 as (ident & -> & Hne & Hident).
  simpl fst in *. simpl snd in *. rewrite consumed_app in H.
  rewrite in_map_iff in H. destruct H as (z & [= <- <-] & H).
  apply star_ways_In in H as (rest & -> & Hrest).
  exists tag, ident, rest. repeat split; auto.
Qed.

Lemma ROW_ways_shape (s s' : text) (c' : captures) :
  In (s', c') (ways ROW s []) ->
  exists pre tag ident rest,
    s = pre ++ tag ++ str "(" ++ ident ++ rest ++ s' /\
    forallb (accepts Dot) pre = true /\
    In tag tags /\ ident <> [] /\ forallb (accepts IDENT) ident = true /\
    forallb (accepts Dot) rest = true /\
    c' = [(2, ident); (1, tag)].
Proof.
  rewrite ROW_unfold. cbn [ways]. fold ENTRY.
  rewrite in_flat_map. intros ([s1 c1] & H1 & H).
  rewrite in_map_iff in H1. destruct H1 as (x & [= <- <-] & H1).
  apply star_ways_In in H1 as (pre & -> & Hpre). simpl fst in H. simpl snd in H.
  apply ENTRY_ways_shape in H as (tag & ident & rest & -> & H).
  exists pre, tag, ident, rest. split; [reflexivity|]. split; [assumption|]. exact H.
Qed.

(** The first way of matching [ENTRY]: the whole run of identifier characters
    and the whole rest of the line. *)
Lemma ENTRY_first_way_before (tag ident rest s' : text) (c : captures) :
  In tag tags -> ident <> [] -> forallb (accepts IDENT) ident = true ->
  stops IDENT (rest ++ s') = true ->
  forallb (accepts Dot) rest = true -> stops Dot s' = true ->
  exists others,
    ways ENTRY (tag ++ str "(" ++ ident ++ rest ++ s') c
    = (s', (2, ident) :: (1, tag) :: c) :: others.
Proof.
  intros Htag Hne Hident Hstop Hrest Hend. unfold ENTRY.
  assert (ways (Group 1 TAGS) (tag ++ str "(" ++ ident ++ rest ++ s') c
          = [(str "(" ++ ident ++ rest ++ s', (1, tag) :: c)]) as H1.
  { cbn [ways]. rewrite ways_TAGS by assumption. simpl map.
    now rewrite consumed_app. }
  rewrite (ways_Seq_single _ _ _ _ _ H1). simpl fst. simpl snd.
  assert (ways (Lit (str "(")) (str "(" ++ ident ++ rest ++ s') ((1, tag) :: c)
          = [(ident ++ rest ++ s', (1, tag) :: c)]) as H2.
  { cbn [ways]. now rewrite strip_prefix_app. }
  rewrite (ways_Seq_single _ _ _ _ _ H2). simpl fst. simpl snd.
  destruct (plus_ways_hd IDENT ident (rest ++ s') Hne Hident Hstop) as (o3 & H3).
  destruct (star_ways_hd Dot rest s' Hrest Hend) as (o4 & H4).
  eapply ways_Seq_hd.
  - cbn [ways]. rewrite H3. simpl map. rewrite consumed_app. reflexivity.
  - simpl. rewrite H4. simpl. reflexivity.
Qed.

Lemma ENTRY_first_way (tag ident rest : text) (c : captures) :
  In tag tags -> ident <> [] -> forallb (accepts IDENT) ident = true ->
  stops IDENT rest = true -> forallb (accepts Dot) rest = true ->
  exists others,
    ways ENTRY (tag ++ str "(" ++ ident ++ rest) c
    = ([], (2, ident) :: (1, tag) :: c) :: others.
Proof.
  intros Htag Hne Hident Hstop Hrest.
  rewrite <- (app_nil_r rest) in Hstop.
  destruct (ENTRY_first_way_before tag ident rest [] c Htag Hne Hident Hstop Hrest eq_refl)
    as (others & H).
  rewrite app_nil_r in H. now exists others.
Qed.

Lemma star_ways_split (k : cls) (s : text) :
  exists shorter,
    star_ways k s = shorter ++ [s] /\
    forall s', In s' shorter -> exists u, s = u ++ s' /\ u <> [].
Proof.
  destruct s as [|c s]; simpl.
  - exists []. split; [reflexivity | intros ? []].
  - destruct (accepts k c).
    + exists (star_ways k s). split; [reflexivity|].
      intros s' H. apply star_ways_In in H as (u & -> & _).
      now exists (c :: u).
    + exists []. split; [reflexivity | intros ? []].
Qed.

Lemma star_ways_app (k : cls) (pre s : text) :
  forallb (accepts k) pre = true ->
  exists longer, star_ways k (pre ++ s) = star_ways k s ++ longer.
Proof.
  induction pre as [|c pre IH]; simpl; intros H.
  - exists []. now rewrite app_nil_r.
  - apply andb_true_iff in H as [-> H]. destruct (IH H) as (longer & ->).
    eexists. now rewrite <- app_assoc.
Qed.

Lemma ENTRY_ways_start (s : text) (c : captures) :
  ways ENTRY s c <> [] -> entry_start s = true.
Proof.
  destruct (ways ENTRY s c) as [|[s' c'] l] eqn:E; [easy|]. intros _.
  assert (In (s', c') (ways ENTRY s c)) as H by (rewrite E; now left).
  apply ENTRY_ways_shape in H as (tag & ident & rest & -> & Htag & Hne & Hident & _).
  unfold entry_start. apply existsb_exists. exists tag. split; [assumption|].
  rewrite (app_assoc tag), strip_prefix_app.
  destruct ident as [|d ident]; [easy|]. simpl in *.
  now apply andb_true_iff in Hident as [Hd _].
Qed.

Lemma no_entry_in_tail (c : char) (s : text) : no_entry_in (c :: s) -> no_entry_in s.
Proof.
  unfold no_entry_in. cbn [has_entry]. intros H.
  now apply orb_false_iff in H as [_ H].
Qed.

Lemma no_entry_in_start (s : text) :
  no_entry_in s -> forall u s', s = u ++ s' -> entry_start s' = false.
Proof.
  intros Hs u. revert s Hs. induction u as [|d u IH]; intros s Hs s' ->.
  - unfold no_entry_in in Hs. destruct s'; cbn [has_entry app] in Hs;
      now apply orb_false_iff in Hs as [Hs _].
  - apply (IH (u ++ s')); [|reflexivity]. now apply (no_entry_in_tail d).
Qed.

Lemma no_entry_in_ways (s : text) :
  no_entry_in s -> forall u s', s = u ++ s' -> ways ENTRY s' [] = [].
Proof.
  intros Hs u s' Hu. pose proof (no_entry_in_start s Hs u s' Hu) as Hstart.
  destruct (ways ENTRY s' []) as [|w l] eqn:E; [reflexivity|exfalso].
  rewrite ENTRY_ways_start with (c := []) in Hstart; [discriminate|].
  now rewrite E.
Qed.

Lemma no_entry_in_match (s : text) : no_entry_in s -> match_at ROW s = None.
Proof.
  intros Hs. apply match_at_None. rewrite ROW_unfold. cbn [ways].
  apply flat_map_nil. intros [s1 c1] H.
  rewrite in_map_iff in H. destruct H as (x & [= <- <-] & H).
  apply star_ways_In in H as (u & -> & _). cbn [fst snd].
  now apply (no_entry_in_ways _ Hs u).
Qed.

(** The match of [ROW] on a line whose last entry is [tag(ident]. *)
Lemma ROW_match_line (pre tag ident rest : text) :
  forallb (accepts Dot) pre = true ->
  In tag tags -> ident <> [] -> forallb (accepts IDENT) ident = true ->
  stops IDENT rest = true -> forallb (accepts Dot) rest = true ->
  no_entry_in (tl (tag ++ str "(" ++ ident ++ rest)) ->
  match_at ROW (pre ++ tag ++ str "(" ++ ident ++ rest)
  = Some (length (pre ++ tag ++ str "(" ++ ident ++ rest), [(2, ident); (1, tag)]).
Proof.
  intros Hpre Htag Hne Hident Hstop Hrest Hlater.
  destruct (ENTRY_first_way tag ident rest [] Htag Hne Hident Hstop Hrest)
    as (others & Hfirst).
  set (X := tag ++ str "(" ++ ident ++ rest) in *.
  assert (forall s', (exists u, X = u ++ s' /\ u <> []) -> ways ENTRY s' [] = []) as Hnone.
  { intros s' (u & HX & Hu). destruct u as [|d u]; [easy|].
    rewrite HX in Hlater. simpl in Hlater.
    now apply (no_entry_in_ways _ Hlater u). }
  unfold match_at. rewrite ROW_unfold. cbn [ways].
  destruct (star_ways_app Dot pre X Hpre) as (longer & ->).
  destruct (star_ways_split Dot X) as (shorter & -> & Hshorter).
  rewrite !map_app, !flat_map_app.
  rewrite flat_map_nil.
  - cbn [map flat_map app fst snd]. rewrite Hfirst.
    cbn [app length]. now rewrite Nat.sub_0_r.
  - intros [s1 c1] H. rewrite in_map_iff in H. destruct H as (x & [= <- <-] & H).
    cbn [fst snd]. auto.
Qed.

(** [findall] on such a line reports that entry, and nothing else. *)
Lemma ROW_findall_line (pre tag ident rest : text) :
  forallb (accepts Dot) pre = true ->
  In tag tags -> ident <> [] -> forallb (accepts IDENT) ident = true ->
  stops IDENT rest = true -> forallb (accepts Dot) rest = true ->
  no_entry_in (tl (tag ++ str "(" ++ ident ++ rest)) ->
  findall ROW (pre ++ tag ++ str "(" ++ ident ++ rest) = [(tag, ident)].
Proof.
  intros Hpre Htag Hne Hident Hstop Hrest Hlater.
  pose proof (ROW_match_line pre tag ident rest Hpre Htag Hne Hident Hstop Hrest Hlater) as Hm.
  unfold findall, finditer.
  destruct (pre ++ tag ++ str "(" ++ ident ++ rest) as [|c s] eqn:E.
  - discriminate.
  - cbn [finditer_from]. rewrite Hm. cbn [map].
    rewrite (finditer_from_skip_all ROW ROW_match_nil) by (simpl; lia).
    reflexivity.
Qed.

(** A text in which no entry starts has no rows. *)
Lemma ROW_findall_none (s : text) : no_entry_in s -> findall ROW s = [].
Proof.
  intros Hs. unfold findall, finditer.
  enough (forall pos, finditer_from ROW s pos 0 = []) as -> by reflexivity.
  induction s as [|c s IH]; intros pos; cbn [finditer_from].
  - now rewrite ROW_match_nil.
  - rewrite (no_entry_in_match _ Hs). apply IH. now apply no_entry_in_tail in Hs.
Qed.

(** What [findall] reports for [ROW]: recognised tags and non-empty runs of
    identifier characters. *)
Lemma ROW_findall_rows (s : text) :
  Forall (fun row => In (fst row) tags /\ snd row <> [] /\
                     forallb (accepts IDENT) (snd row) = true)
         (findall ROW s).
Proof.
  unfold findall, finditer. apply Forall_map.
  pose proof (finditer_from_genuine ROW s 0 0) as H.
  eapply Forall_impl; [|exact H]. clear H. intros m H.
  apply match_at_Some in H as (s' & H & _).
  apply ROW_ways_shape in H as (pre & tag & ident & rest & _ & _ & Htag & Hne & Hident & _ & Hc).
  unfold groups2, group. rewrite Hc. simpl. auto.
Qed.

(** ** The two loops *)

Lemma fold_append_row (rows : list (text * text)) :
  forall t,
    fold_left append_row rows t
    = Tables (commands t ++ map (fun row => upper (snd row)) rows)
             (command_types t ++ map upper_row rows).
Proof.
  induction rows as [|[type command] rows IH]; intros [cs cts]; simpl.
  - now rewrite !app_nil_r.
  - rewrite IH. simpl. now rewrite <- !app_assoc.
Qed.

Lemma emit_app (output : text) (entry : text * text) :
  emit output entry = output ++ emit [] entry.
Proof.
  destruct entry as [type command]. unfold emit.
  destruct (text_eqb type (str "OBSOLETE")), (text_eqb type (str "MULTLINE"));
    now rewrite <- ?app_assoc.
Qed.

Lemma fold_emit (entries : list (text * text)) :
  forall output,
    fold_left emit entries output = output ++ concat (map (emit []) entries).
Proof.
  induction entries as [|e entries IH]; intros output; simpl.
  - now rewrite app_nil_r.
  - rewrite IH, emit_app. now rewrite <- app_assoc.
Qed.

Lemma extract_spec (contents : text) (out : text) :
  extract contents out =
  match captured contents with
  | Some g =>
      (Returned (fold_left append_row (findall ROW (rstrip g)) (Tables [] [])), out)
  | None => (Raised AttributeError, out)
  end.
Proof.
  unfold extract, captured, bind, group1, ret, raise.
  destruct (search TABLE contents) as [m|]; [|reflexivity].
  now destruct (group m 1).
Qed.

(** The whole run, in closed form. *)
Lemma run_spec (file : text) (src : source_file) :
  run file src =
  match src with
  | Unreadable => (Raised OSError, [])
  | Readable contents =>
      match captured contents with
      | Some g =>
          (Returned tt,
           header file
           ++ concat (map (emit []) (map upper_row (findall ROW (rstrip g))))
           ++ [nl])
      | None => (Raised AttributeError, [])
      end
  end.
Proof.
  unfold run, main. destruct src as [contents|]; [|reflexivity].
  unfold bind at 1. unfold open_read, ret.
  unfold bind. rewrite extract_spec.
  destruct (captured contents) as [g|]; [|reflexivity].
  unfold print. rewrite fold_append_row, fold_emit. simpl.
  now rewrite <- !app_assoc.
Qed.

Lemma findall_join (ls : list text) :
  findall ROW (join_lines ls) = flat_map (findall ROW) ls.
Proof.
  induction ls as [|l ls IH]; [reflexivity|].
  destruct ls as [|l' ls].
  - simpl. now rewrite app_nil_r.
  - change (join_lines (l :: l' :: ls)) with (l ++ nl :: join_lines (l' :: ls)).
    rewrite (findall_lines ROW l _ ROW_nl_free ROW_match_nil), IH.
    reflexivity.
Qed.

(** ** The table pattern *)

Lemma search_from_Some (r : regex) (s : text) :
  forall pos m,
    search_from r s pos = Some m ->
    exists u v len,
      s = u ++ v /\ match_at r v = Some (len, m_caps m) /\
      m_start m = pos + length u /\ m_end m = m_start m + len.
Proof.
  induction s as [|c s IH]; intros pos m; simpl.
  - destruct (match_at r []) as [[len caps]|] eqn:E; [|easy].
    intros [= <-]. exists [], [], len. simpl. repeat split; auto.
  - destruct (match_at r (c :: s)) as [[len caps]|] eqn:E.
    + intros [= <-]. exists [], (c :: s), len. simpl. repeat split; auto.
    + intros H. apply IH in H as (u & v & len & -> & Hm & Hs & He).
      exists (c :: u), v, len. simpl. repeat split; auto. lia.
Qed.

Lemma search_from_None (r : regex) (s : text) :
  (forall u v, s = u ++ v -> match_at r v = None) ->
  forall pos, search_from r s pos = None.
Proof.
  induction s as [|c s IH]; intros H pos; simpl.
  - now rewrite (H [] []).
  - rewrite (H [] (c :: s)) by reflexivity. apply IH.
    intros u v ->. now apply (H (c :: u) v).
Qed.

Lemma ways_Seq_In (a b : regex) (s : text) (c : captures) (w : text * captures) :
  In w (ways (Seq a b) s c) <->
  exists w1, In w1 (ways a s c) /\ In w (ways b (fst w1) (snd w1)).
Proof. cbn [ways]. apply in_flat_map. Qed.

Lemma ways_Lit_In (p s s' : text) (c c' : captures) :
  In (s', c') (ways (Lit p) s c) <-> s = p ++ s' /\ c' = c.
Proof.
  cbn [ways]. destruct (strip_prefix p s) as [x|] eqn:E.
  - apply strip_prefix_Some in E. subst s. split.
    + intros [[= <- <-]|[]]. auto.
    + intros [H ->]. apply app_inv_head in H. subst. now left.
  - split; [easy|]. intros [-> _]. now rewrite strip_prefix_app in E.
Qed.

Lemma ways_Star_In (k : cls) (s s' : text) (c c' : captures) :
  In (s', c') (ways (Star k) s c) ->
  exists u, s = u ++ s' /\ forallb (accepts k) u = true /\ c' = c.
Proof.
  cbn [ways]. rewrite in_map_iff. intros (x & [= <- <-] & H).
  apply star_ways_In in H as (u & -> & Hu). now exists u.
Qed.

Lemma ways_Group_Plus_In (n : nat) (k : cls) (s s' : text) (c c' : captures) :
  In (s', c') (ways (Group n (Plus k)) s c) ->
  exists u, s = u ++ s' /\ u <> [] /\ forallb (accepts k) u = true /\
            c' = (n, u) :: c.
Proof.
  cbn [ways]. rewrite in_map_iff. intros ([s1 c1] & [= <- <-] & H).
  rewrite in_map_iff in H. destruct H as (x & [= <- <-] & H).
  apply plus_ways_In in H as (u & -> & Hne & Hu).
  exists u. cbn [fst snd]. now rewrite consumed_app.
Qed.

(** A match of [TABLE] reads the declaration, the equals sign and the opening
    brace with the white space between them, and captures the text up to the
    closing brace. *)
Lemma TABLE_ways_shape (s s' : text) (c' : captures) :
  In (s', c') (ways TABLE s []) ->
  exists ws1 ws2 nls g,
    s = str "control_cmd_def_t CONTROL_COMMANDS[]" ++ ws1 ++ str "=" ++ ws2
        ++ str "{" ++ nls ++ g ++ str "}" ++ s' /\
    forallb isspace ws1 = true /\ forallb isspace ws2 = true /\
    forallb (accepts (OneOf [(nl, nl)])) nls = true /\
    g <> [] /\ forallb (accepts (NoneOf [(chr "}", chr "}")])) g = true /\
    c' = [(1, g)].
Proof.
  unfold TABLE. intros H.
  apply ways_Seq_In in H as ([s1 c1] & H1 & H). cbn [fst snd] in H.
  apply ways_Lit_In in H1 as (-> & ->).
  apply ways_Seq_In in H as ([s2 c2] & H2 & H). cbn [fst snd] in H.
  apply ways_Star_In in H2 as (ws1 & -> & Hws1 & ->).
  apply ways_Seq_In in H as ([s3 c3] & H3 & H). cbn [fst snd] in H.
  apply ways_Lit_In in H3 as (-> & ->).
  apply ways_Seq_In in H as ([s4 c4] & H4 & H). cbn [fst snd] in H.
  apply ways_Star_In in H4 as (ws2 & -> & Hws2 & ->).
  apply ways_Seq_In in H as ([s5 c5] & H5 & H). cbn [fst snd] in H.
  apply ways_Lit_In in H5 as (-> & ->).
  apply ways_Seq_In in H as ([s6 c6] & H6 & H). cbn [fst snd] in H.
  apply ways_Star_In in H6 as (nls & -> & Hnls & ->).
  apply ways_Seq_In in H as ([s7 c7] & H7 & H). cbn [fst snd] in H.
  apply ways_Group_Plus_In in H7 as (g & -> & Hne & Hg & ->).
  apply ways_Lit_In in H as (-> & ->).
  exists ws1, ws2, nls, g. repeat split; auto.
Qed.

(** When the search succeeds, group 1 is set, and it is the text between the
    braces of a declaration of the table. *)
Lemma captured_located (contents table : text) :
  captured contents = Some table ->
  exists above ws1 ws2 nls below,
    contents = above ++ str "control_cmd_def_t CONTROL_COMMANDS[]" ++ ws1
               ++ str "=" ++ ws2 ++ str "{" ++ nls ++ table ++ str "}" ++ below /\
    forallb isspace ws1 = true /\ forallb isspace ws2 = true /\
    forallb (accepts (OneOf [(nl, nl)])) nls = true /\
    table <> [] /\ forallb (accepts (NoneOf [(chr "}", chr "}")])) table = true.
Proof.
  unfold captured. destruct (search TABLE contents) as [m|] eqn:Hm; [|easy].
  apply search_from_Some in Hm as (u & v & len & -> & Hmatch & _).
  apply match_at_Some in Hmatch as (s' & Hin & _).
  apply TABLE_ways_shape in Hin as (ws1 & ws2 & nls & g & -> & H1 & H2 & H3 & H4 & H5 & Hc).
  unfold group. rewrite Hc. cbn. intros [= <-].
  exists u, ws1, ws2, nls, s'. repeat split; auto.
Qed.

Lemma captured_Some_iff (contents : text) :
  (exists m, search TABLE contents = Some m) <-> (exists g, captured contents = Some g).
Proof.
  unfold captured. split.
  - intros (m & Hm). rewrite Hm.
    apply search_from_Some in Hm as (u & v & len & _ & Hmatch & _).
    apply match_at_Some in Hmatch as (s' & Hin & _).
    apply TABLE_ways_shape in Hin as (ws1 & ws2 & nls & g & _ & _ & _ & _ & _ & _ & Hc).
    exists g. unfold group. rewrite Hc. reflexivity.
  - intros (g & Hg). destruct (search TABLE contents) as [m|]; [now exists m | easy].
Qed.

(** Without the name of the table in the text, the search finds nothing. *)
Lemma search_TABLE_absent (contents : text) :
  contains (str "CONTROL_COMMANDS") contents = false ->
  search TABLE contents = None.
Proof.
  intros Hc. apply search_from_None. intros u v ->.
  apply match_at_None.
  destruct (ways TABLE v []) as [|[s' c'] l] eqn:E; [reflexivity|exfalso].
  assert (In (s', c') (ways TABLE v [])) as H by (rewrite E; now left).
  apply TABLE_ways_shape in H as (ws1 & ws2 & nls & g & -> & _).
  apply (contains_false _ _ Hc (u ++ str "control_cmd_def_t ")
           (str "[]" ++ ws1 ++ str "=" ++ ws2 ++ str "{" ++ nls ++ g ++ str "}" ++ s')).
  rewrite <- !app_assoc. reflexivity.
Qed.

(** ** The generated text *)

Lemma scenario_captured : captured scenario_source = Some scenario_table.
Proof. vm_compute. reflexivity. Qed.

Lemma emit_OBSOLETE (output name : text) :
  emit output (str "OBSOLETE", name)
  = output ++ deprecated_marker ++ java_const name name.
Proof.
  unfold emit, declaration, java_const, deprecated_marker.
  change (text_eqb (str "OBSOLETE") (str "OBSOLETE")) with true.
  change (text_eqb (str "OBSOLETE") (str "MULTLINE")) with false.
  cbn iota. now rewrite <- !app_assoc.
Qed.

Lemma emit_MULTLINE (output name : text) :
  emit output (str "MULTLINE", name)
  = output ++ java_const name (str "+" ++ name).
Proof.
  unfold emit, declaration, java_const.
  change (text_eqb (str "MULTLINE") (str "OBSOLETE")) with false.
  change (text_eqb (str "MULTLINE") (str "MULTLINE")) with true.
  cbn iota. now rewrite <- !app_assoc.
Qed.

Lemma emit_ONE_LINE (output name : text) :
  emit output (str "ONE_LINE", name)
  = output ++ java_const name name.
Proof.
  unfold emit, declaration, java_const.
  change (text_eqb (str "ONE_LINE") (str "OBSOLETE")) with false.
  change (text_eqb (str "ONE_LINE") (str "MULTLINE")) with false.
  cbn iota. reflexivity.
Qed.

Lemma emit_row_lines (row : text * text) : emit [] (upper_row row) = row_lines row.
Proof.
  destruct row as [type command].
  unfold emit, upper_row, row_lines, declaration, java_const, deprecated_marker.
  cbn [fst snd].
  destruct (text_eqb type (str "OBSOLETE")), (text_eqb type (str "MULTLINE"));
    cbn [app]; now rewrite <- ?app_assoc.
Qed.

(** A successful run writes the provenance line, the lines of each row in the
    order of [findall], and the newline of [print]. *)
Lemma run_located (file contents table : text) :
  captured contents = Some table ->
  run file (Readable contents)
  = (Returned tt,
     generated_by file
     ++ concat (map row_lines (findall ROW (rstrip table))) ++ [nl]).
Proof.
  intros H. rewrite run_spec, H, map_map.
  rewrite (map_ext _ _ emit_row_lines). reflexivity.
Qed.

Lemma ROW_match_nonempty (s : text) (len : nat) (caps : captures) :
  match_at ROW s = Some (len, caps) -> 0 < len.
Proof.
  intros H. apply match_at_Some in H as (s' & H & ->).
  apply ROW_ways_shape in H as (pre & tag & ident & rest & -> & _).
  rewrite !length_app. simpl. lia.
Qed.

(** Scanning passes over no position where the pattern matches, except inside
    a match it has reported. *)
Lemma finditer_from_complete (r : regex) (s : text) :
  forall pos skip p,
    skip <= p -> p <= length s ->
    (exists m, In m (finditer_from r s pos skip) /\
               m_start m <= pos + p /\
               (pos + p < m_end m \/ pos + p = m_start m))
    \/ match_at r (skipn p s) = None.
Proof.
  induction s as [|c s IH]; intros pos skip p Hskip Hp; simpl in Hp.
  - assert (p = 0) as -> by lia. assert (skip = 0) as -> by lia. simpl.
    destruct (match_at r []) as [[len caps]|]; [left|now right].
    eexists. split; [now left|]. simpl. lia.
  - destruct skip as [|k]; cbn [finditer_from].
    + destruct (match_at r (c :: s)) as [[len caps]|] eqn:E.
      * destruct p as [|p].
        { left. eexists. split; [now left|]. simpl. lia. }
        destruct (Nat.lt_ge_cases (S p) len) as [Hlt|Hge].
        { left. eexists. split; [now left|]. simpl. lia. }
        destruct (IH (S pos) (pred len) p) as [(m & Hin & Hm)|Hnone]; try lia.
        -- left. exists m. split; [now right|]. lia.
        -- now right.
      * destruct p as [|p]; [now right|].
        destruct (IH (S pos) 0 p) as [(m & Hin & Hm)|Hnone]; try lia.
        -- left. exists m. split; [assumption|]. lia.
        -- now right.
    + destruct p as [|p]; [lia|].
      destruct (IH (S pos) k p) as [(m & Hin & Hm)|Hnone]; try lia.
      * left. exists m. split; [assumption|]. lia.
      * now right.
Qed.

(** ** Rows, seen from the matches *)

Lemma span (k : cls) (s : text) :
  exists u v, s = u ++ v /\ forallb (accepts k) u = true /\ stops k v = true.
Proof.
  induction s as [|c s (u & v & -> & Hu & Hv)].
  - now exists [], [].
  - destruct (accepts k c) eqn:E.
    + exists (c :: u), v. simpl. now rewrite E.
    + exists [], (c :: u ++ v). simpl. now rewrite E.
Qed.




Lemma entry_line_findall (pre tag ident rest : text) :
  entry_line pre tag ident rest = true ->
  findall ROW (pre ++ tag ++ str "(" ++ ident ++ rest) = [(tag, ident)].
Proof.
  unfold entry_line. rewrite !andb_true_iff, negb_true_iff.
  intros ((((((Hpre & Htag) & Hne) & Hident) & Hstop) & Hrest) & Hlater).
  apply ROW_findall_line; auto.
  - apply existsb_exists in Htag as (t & Ht & E).
    apply text_eqb_eq in E. now subst.
  - now destruct ident.
Qed.


Lemma upper_char_IDENT (c : char) :
  accepts IDENT c = true -> accepts UPPER_IDENT (upper_char c) = true.
Proof.
  unfold accepts, IDENT, UPPER_IDENT, in_ranges, existsb, upper_char, in_range, chr.
  cbn [fst snd N_of_ascii N_of_digits]. simpl.
  rewrite !orb_false_r.
  destruct ((97 <=? c)%N && (c <=? 122)%N) eqn:E.
  - intros _. apply andb_true_iff in E as [E1 E2]. apply N.leb_le in E1, E2.
    apply orb_true_iff. left. apply andb_true_iff.
    split; apply N.leb_le; lia.
  - simpl. auto.
Qed.

Lemma upper_IDENT (x : text) :
  forallb (accepts IDENT) x = true -> forallb (accepts UPPER_IDENT) (upper x) = true.
Proof.
  induction x as [|c x IH]; simpl; [reflexivity|].
  rewrite !andb_true_iff. intros [Hc Hx]. split; [|now apply IH].
  now apply upper_char_IDENT.
Qed.


Lemma header_inj (file1 file2 body1 body2 : text) :
  length body1 = length body2 ->
  header file1 ++ body1 = header file2 ++ body2 -> file1 = file2.
Proof.
  unfold header. intros Hlen H. rewrite <- !app_assoc in H.
  apply app_inv_head in H. apply app_inv_head in H.
  assert (length file1 = length file2) as Hf.
  { apply (f_equal (@length char)) in H.
    rewrite !length_app in H. simpl in H. lia. }
  clear Hlen. revert file2 H Hf.
  induction file1 as [|c f IH]; intros [|d g]; simpl; try easy.
  intros [= -> H] [= Hl]. f_equal. now apply IH.
Qed.

(** ** Texts without rows *)





(** ** Runs, statement by statement *)








(** * Properties of the generator *)

(** C1. Every extracted row is written according to its tag: for OBSOLETE the
    deprecation marker line and then the constant whose value is the bare
    upper-cased name, for MULTLINE the constant whose value is the upper-cased
    name after a plus sign, for ONE_LINE the constant whose value is the bare
    upper-cased name.  On the three rows ONE_LINE(GETINFO), MULTLINE(GETCONF),
    OBSOLETE(POSTDESCRIPTOR) the text written is, in that order, the GETINFO
    constant, the GETCONF constant with value +GETCONF, and the marker
    followed by the POSTDESCRIPTOR constant. *)
Theorem C1_category_mapping :
  (forall file contents table,
      captured contents = Some table ->
      let rows := findall ROW (rstrip table) in
      run file (Readable contents)
      = (Returned tt, generated_by file ++ concat (map row_lines rows) ++ [nl]) /\
      Forall (fun row =>
                let name := upper (snd row) in
                (fst row = str "OBSOLETE" /\
                 row_lines row = deprecated_marker ++ java_const name name) \/
                (fst row = str "MULTLINE" /\
                 row_lines row = java_const name (str "+" ++ name)) \/
                (fst row = str "ONE_LINE" /\
                 row_lines row = java_const name name))
             rows) /\
  (forall file,
      run file (Readable scenario_source)
      = (Returned tt,
         generated_by file
         ++ java_const (str "GETINFO") (str "GETINFO")
         ++ java_const (str "GETCONF") (str "+GETCONF")
         ++ deprecated_marker
         ++ java_const (str "POSTDESCRIPTOR") (str "POSTDESCRIPTOR")
         ++ [nl])).
Proof.
  split.
  - intros file contents table H rows. split; [now apply run_located|].
    eapply Forall_impl; [|apply ROW_findall_rows].
    intros [type command] (Htag & _). cbn [fst snd] in *.
    rewrite <- emit_row_lines. unfold upper_row. cbn [fst snd].
    destruct Htag as [<-|[<-|[<-|[]]]].
    + right; left. split; [reflexivity|]. now rewrite emit_MULTLINE.
    + left. split; [reflexivity|]. now rewrite emit_OBSOLETE.
    + right; right. split; [reflexivity|]. now rewrite emit_ONE_LINE.
  - intros file. rewrite (run_located file _ _ scenario_captured).
    reflexivity.
Qed.

Lemma C1_category_mapping_witness :
  captured scenario_source = Some scenario_table /\
  run (str "tools/generate-TorControlCommands.py") (Readable scenario_source)
  = (Returned tt,
     generated_by (str "tools/generate-TorControlCommands.py")
     ++ concat (map row_lines (findall ROW (rstrip scenario_table))) ++ [nl]).
Proof.
  split; [vm_compute; reflexivity|].
  apply (proj1 C1_category_mapping
           (str "tools/generate-TorControlCommands.py")
           scenario_source scenario_table).
  vm_compute; reflexivity.
Defined.

(** C2. When the table is found, the constants are written in the order in
    which the rows are matched in the captured text.  The text scanned is the
    one between the braces of the table, without its trailing white space; the
    matches are listed by increasing position and do not overlap, each is the
    match the pattern has at its position, no position with a match is passed
    over outside a reported match, and the output holds the lines of exactly
    these matches, in that order. *)
Theorem C2_order_preserved (file contents table : text) :
  captured contents = Some table ->
  let t := rstrip table in
  let ms := finditer ROW t in
  (exists above nls ws below,
      contents = above ++ str "{" ++ nls ++ t ++ ws ++ str "}" ++ below /\
      forallb (accepts (OneOf [(nl, nl)])) nls = true /\
      forallb isspace ws = true) /\
  StronglySorted before ms /\
  Forall (fun m => match_at ROW (skipn (m_start m) t)
                   = Some (m_end m - m_start m, m_caps m)) ms /\
  (forall p, p <= length t ->
             (exists m, In m ms /\ m_start m <= p < m_end m)
             \/ match_at ROW (skipn p t) = None) /\
  run file (Readable contents)
  = (Returned tt,
     generated_by file ++ concat (map (fun m => row_lines (groups2 m)) ms) ++ [nl]).
Proof.
  intros H t ms. split; [|repeat split].
  - destruct (captured_located contents table H)
      as (above & ws1 & ws2 & nls & below & Hc & _ & _ & Hnls & _).
    destruct (rstrip_spec table) as (ws & Ht & Hws).
    exists (above ++ str "control_cmd_def_t CONTROL_COMMANDS[]" ++ ws1 ++ str "=" ++ ws2),
      nls, ws, below.
    split; [|now split].
    rewrite Hc. fold t in Ht. rewrite Ht at 1. now rewrite <- !app_assoc.
  - apply finditer_from_sorted.
  - pose proof (finditer_from_genuine ROW t 0 0) as Hg.
    eapply Forall_impl; [|exact Hg]. intros m Hm. cbv beta in Hm.
    now rewrite Nat.sub_0_r in Hm.
  - intros p Hp.
    destruct (finditer_from_complete ROW t 0 0 p) as [(m & Hin & Hs & He)|Hnone];
      [lia|assumption| |now right].
    left. exists m. split; [assumption|]. simpl in Hs, He.
    destruct He as [He|He]; [lia|].
    pose proof (finditer_from_genuine ROW t 0 0) as Hg.
    rewrite Forall_forall in Hg. specialize (Hg m Hin). cbv beta in Hg.
    apply ROW_match_nonempty in Hg. lia.
  - rewrite (run_located file _ _ H). unfold findall. now rewrite map_map.
Qed.

Lemma C2_order_preserved_witness :
  captured scenario_source = Some scenario_table /\
  map (fun m => (m_start m, m_end m)) (finditer ROW (rstrip scenario_table))
  = [(0, 20); (21, 41); (42, 69)] /\
  StronglySorted before (finditer ROW (rstrip scenario_table)).
Proof.
  split; [vm_compute; reflexivity|]. split; [vm_compute; reflexivity|].
  apply (C2_order_preserved (str "gen.py") scenario_source scenario_table).
  vm_compute; reflexivity.
Defined.

(** C3, counterexample.  On a text in which the name of the table does not
    occur the run ends with an exception, but with the [AttributeError] of the
    failed attribute lookup on [None], not with one named ExtractionError. *)
Lemma C3_counterexample :
  contains (str "CONTROL_COMMANDS") missing_source = false /\
  run (str "tools/generate-TorControlCommands.py") (Readable missing_source)
  = (Raised AttributeError, []) /\
  ~ (exists e,
        fst (run (str "tools/generate-TorControlCommands.py") (Readable missing_source))
        = Raised e /\
        exception_name e = "ExtractionError"%string).
Proof.
  split; [vm_compute; reflexivity|]. split; [vm_compute; reflexivity|].
  intros (e & He & Hname). vm_compute in He. injection He as <-.
  discriminate Hname.
Qed.

(** C3, amended.  For every source text in which the name of the table,
    CONTROL_COMMANDS, does not occur, the run ends with the AttributeError
    raised by calling [group] on the [None] that [re.search] returned, and
    nothing is written. *)
Theorem C3_missing_table (file contents : text) :
  contains (str "CONTROL_COMMANDS") contents = false ->
  search TABLE contents = None /\
  run file (Readable contents) = (Raised AttributeError, []) /\
  exception_name AttributeError = "AttributeError"%string.
Proof.
  intros H. pose proof (search_TABLE_absent contents H) as Hs.
  split; [assumption|]. split; [|reflexivity].
  rewrite run_spec. unfold captured. now rewrite Hs.
Qed.

Lemma C3_missing_table_witness :
  contains (str "CONTROL_COMMANDS") missing_source = false /\
  run (str "tools/generate-TorControlCommands.py") (Readable missing_source)
  = (Raised AttributeError, []).
Proof.
  split; [vm_compute; reflexivity|].
  apply (C3_missing_table (str "tools/generate-TorControlCommands.py") missing_source).
  vm_compute; reflexivity.
Defined.

(** C4. Whatever the case of a captured identifier, the constant written for
    it is named by the upper-cased identifier and its string value is the
    upper-cased identifier, after a plus sign for MULTLINE: the output is made
    of these lines, the upper-cased identifier holds capitals, digits and
    underscores only, and upper-casing maps each small letter to its capital
    and leaves the other identifier characters alone. *)
Theorem C4_names_upper_cased (file contents table : text) :
  captured contents = Some table ->
  let rows := findall ROW (rstrip table) in
  run file (Readable contents)
  = (Returned tt,
     generated_by file
     ++ concat (map (fun row =>
                       (if text_eqb (fst row) (str "OBSOLETE")
                        then deprecated_marker else [])
                       ++ java_const (upper (snd row))
                            ((if text_eqb (fst row) (str "MULTLINE")
                              then str "+" else [])
                             ++ upper (snd row)))
                    rows)
     ++ [nl]) /\
  Forall (fun row =>
            forallb (accepts IDENT) (snd row) = true /\
            forallb (accepts UPPER_IDENT) (upper (snd row)) = true /\
            length (upper (snd row)) = length (snd row) /\
            upper (upper (snd row)) = upper (snd row))
         rows /\
  upper (str "abcdefghijklmnopqrstuvwxyzABCDEFGHIJKLMNOPQRSTUVWXYZ0123456789_")
  = str "ABCDEFGHIJKLMNOPQRSTUVWXYZABCDEFGHIJKLMNOPQRSTUVWXYZ0123456789_".
Proof.
  intros H rows. split; [exact (run_located file contents table H)|].
  split; [|reflexivity].
  eapply Forall_impl; [|apply ROW_findall_rows].
  intros row (_ & _ & Hident). repeat split.
  - assumption.
  - now apply upper_IDENT.
  - apply upper_length.
  - apply upper_idem.
Qed.

Lemma C4_names_upper_cased_witness :
  captured tor_source = Some tor_table /\
  findall ROW (rstrip tor_table)
  = [(str "ONE_LINE", str "getinfo"); (str "MULTLINE", str "loadconf");
     (str "OBSOLETE", str "usefeature")] /\
  run (str "tools/generate-TorControlCommands.py") (Readable tor_source)
  = (Returned tt,
     generated_by (str "tools/generate-TorControlCommands.py")
     ++ java_const (str "GETINFO") (str "GETINFO")
     ++ java_const (str "LOADCONF") (str "+LOADCONF")
     ++ deprecated_marker
     ++ java_const (str "USEFEATURE") (str "USEFEATURE")
     ++ [nl]).
Proof.
  split; [vm_compute; reflexivity|]. split; [vm_compute; reflexivity|].
  destruct (C4_names_upper_cased (str "tools/generate-TorControlCommands.py")
              tor_source tor_table) as (Hrun & _).
  - vm_compute; reflexivity.
  - rewrite Hrun. vm_compute. reflexivity.
Defined.




(** C6, counterexample.  Two entries for one identifier that stand on the
    same line are not both kept: the pattern takes the whole line in one
    match, only the last entry gives a row, and one constant is written. *)
Lemma C6_counterexample :
  findall ROW (str "  ONE_LINE(getinfo, 0), OBSOLETE(getinfo),")
  = [(str "OBSOLETE", str "getinfo")] /\
  run (str "gen.py")
      (Readable (join_lines
                   [ str "static const control_cmd_def_t CONTROL_COMMANDS[] =";
                     str "{";
                     str "  ONE_LINE(getinfo, 0), OBSOLETE(getinfo),";
                     str "};" ]))
  = (Returned tt,
     generated_by (str "gen.py")
     ++ deprecated_marker ++ java_const (str "GETINFO") (str "GETINFO") ++ [nl]).
Proof. split; vm_compute; reflexivity. Qed.

(** C6, amended.  When two lines of the table are entries for the same
    identifier, each entry being the last one of its line, under the same tag
    or not, both are rows of the extraction, both are stored by the first
    loop, which stores exactly one pair per row, and both have their lines in
    the output. *)
Theorem C6_duplicates_kept (file contents table : text)
        (above between below : list text)
        (pre1 tag1 rest1 pre2 tag2 rest2 ident : text) :
  captured contents = Some table ->
  rstrip table
  = join_lines (above ++ (pre1 ++ tag1 ++ str "(" ++ ident ++ rest1)
                :: between ++ (pre2 ++ tag2 ++ str "(" ++ ident ++ rest2)
                :: below) ->
  entry_line pre1 tag1 ident rest1 = true ->
  entry_line pre2 tag2 ident rest2 = true ->
  let rows := findall ROW (rstrip table) in
  rows = findall ROW (join_lines above) ++ (tag1, ident)
         :: findall ROW (join_lines between) ++ (tag2, ident)
         :: findall ROW (join_lines below) /\
  extract contents []
  = (Returned (Tables (map (fun row => upper (snd row)) rows) (map upper_row rows)), []) /\
  run file (Readable contents)
  = (Returned tt,
     generated_by file
     ++ concat (map row_lines (findall ROW (join_lines above)))
     ++ row_lines (tag1, ident)
     ++ concat (map row_lines (findall ROW (join_lines between)))
     ++ row_lines (tag2, ident)
     ++ concat (map row_lines (findall ROW (join_lines below)))
     ++ [nl]).
Proof.
  intros H Ht H1 H2 rows.
  assert (rows = findall ROW (join_lines above) ++ (tag1, ident)
                 :: findall ROW (join_lines between) ++ (tag2, ident)
                 :: findall ROW (join_lines below)) as Hrows.
  { unfold rows. rewrite Ht, !findall_join, flat_map_app. cbn [flat_map].
    rewrite flat_map_app. cbn [flat_map].
    now rewrite (entry_line_findall _ _ _ _ H1), (entry_line_findall _ _ _ _ H2). }
  split; [exact Hrows|]. split.
  - rewrite extract_spec, H, fold_append_row. reflexivity.
  - rewrite (run_located file contents table H). fold rows. rewrite Hrows.
    rewrite map_app, concat_app. cbn [map concat].
    rewrite map_app, concat_app. cbn [map concat].
    now rewrite <- !app_assoc.
Qed.

Lemma C6_duplicates_kept_witness :
  captured duplicated_source <> None /\
  run (str "gen.py") (Readable duplicated_source)
  = (Returned tt,
     generated_by (str "gen.py")
     ++ java_const (str "GETINFO") (str "GETINFO")
     ++ java_const (str "LOADCONF") (str "+LOADCONF")
     ++ java_const (str "GETINFO") (str "GETINFO")
     ++ deprecated_marker
     ++ java_const (str "GETINFO") (str "GETINFO")
     ++ [nl]).
Proof.
  split; [vm_compute; discriminate|].
  destruct (C6_duplicates_kept (str "gen.py") duplicated_source
              (join_lines [str "  ONE_LINE(getinfo, 0),"; str "  MULTLINE(loadconf, 0),";
                           str "  ONE_LINE(getinfo, 0),"; str "  OBSOLETE(getinfo),"; []])
              [] [str "  MULTLINE(loadconf, 0),"; str "  ONE_LINE(getinfo, 0),"] []
              (str "  ") (str "ONE_LINE") (str ", 0),")
              (str "  ") (str "OBSOLETE") (str "),")
              (str "getinfo"))
    as (_ & _ & Hrun);
    [vm_compute; reflexivity | vm_compute; reflexivity
     | vm_compute; reflexivity | vm_compute; reflexivity |].
  rewrite Hrun. vm_compute. reflexivity.
Defined.

(** C7. A run that ends with an exception has written nothing: that is the
    case when the file cannot be read and when the table is not located.
    A run that writes does so after the extraction has returned, and then
    writes the whole text at once. *)
Theorem C7_all_or_nothing (file : text) (src : source_file) :
  (forall e out, run file src = (Raised e, out) -> out = []) /\
  (src = Unreadable -> run file src = (Raised OSError, [])) /\
  (forall contents,
      src = Readable contents -> search TABLE contents = None ->
      run file src = (Raised AttributeError, [])) /\
  (forall out,
      run file src = (Returned tt, out) ->
      exists contents t,
        src = Readable contents /\
        extract contents [] = (Returned t, []) /\
        out = fold_left emit (command_types t) (header file) ++ [nl]).
Proof.
  repeat split.
  - intros e out. rewrite run_spec. destruct src as [contents|].
    + destruct (captured contents); [discriminate | now intros [= _ <-]].
    + now intros [= _ <-].
  - now intros ->.
  - intros contents -> Hs. rewrite run_spec. unfold captured. now rewrite Hs.
  - intros out. destruct src as [contents|]; [|discriminate].
    unfold run, main, bind, open_read, ret. rewrite extract_spec.
    destruct (captured contents) as [g|] eqn:E; [|discriminate].
    unfold print. intros [= <-]. eexists _, _.
    split; [reflexivity|]. split; [|reflexivity].
    rewrite extract_spec, E. reflexivity.
Qed.

Lemma C7_all_or_nothing_witness :
  run (str "gen.py") Unreadable = (Raised OSError, []) /\
  run (str "gen.py") (Readable missing_source) = (Raised AttributeError, []) /\
  snd (run (str "gen.py") (Readable missing_source)) = [].
Proof.
  split; [|split].
  - now apply (proj1 (proj2 (C7_all_or_nothing (str "gen.py") Unreadable))).
  - apply (proj1 (proj2 (proj2 (C7_all_or_nothing (str "gen.py") (Readable missing_source))))
             missing_source); vm_compute; reflexivity.
  - apply (proj1 (C7_all_or_nothing (str "gen.py") (Readable missing_source))
             AttributeError).
    vm_compute; reflexivity.
Defined.







(** C10. The line after the opening newline of the output names the path
    under which the script was run: two successful runs on the same source
    file contents write the provenance line of their own path and then the
    same text, so that under different paths the outputs differ, and differ
    in that line only. *)
Theorem C10_header_embeds_path (file1 file2 contents out1 out2 : text) :
  run file1 (Readable contents) = (Returned tt, out1) ->
  run file2 (Readable contents) = (Returned tt, out2) ->
  exists body,
    out1 = [nl] ++ str "    // generated by " ++ file1 ++ [nl] ++ body /\
    out2 = [nl] ++ str "    // generated by " ++ file2 ++ [nl] ++ body /\
    (file1 <> file2 -> out1 <> out2).
Proof.
  rewrite !run_spec. destruct (captured contents) as [g|]; [|discriminate].
  intros [= <-] [= <-].
  exists (concat (map (emit []) (map upper_row (findall ROW (rstrip g)))) ++ [nl]).
  unfold header. rewrite <- !app_assoc. repeat split.
  intros Hne H. apply Hne.
  apply (header_inj file1 file2
           (concat (map (emit []) (map upper_row (findall ROW (rstrip g)))) ++ [nl])
           (concat (map (emit []) (map upper_row (findall ROW (rstrip g)))) ++ [nl])
           eq_refl).
  unfold header. now rewrite <- !app_assoc.
Qed.

Lemma C10_header_embeds_path_witness :
  exists body,
    snd (run (str "tools/generate-TorControlCommands.py") (Readable scenario_source))
    = [nl] ++ str "    // generated by tools/generate-TorControlCommands.py" ++ [nl] ++ body /\
    snd (run (str "./generate-TorControlCommands.py") (Readable scenario_source))
    = [nl] ++ str "    // generated by ./generate-TorControlCommands.py" ++ [nl] ++ body.
Proof.
  destruct (C10_header_embeds_path
              (str "tools/generate-TorControlCommands.py")
              (str "./generate-TorControlCommands.py")
              scenario_source
              (snd (run (str "tools/generate-TorControlCommands.py") (Readable scenario_source)))
              (snd (run (str "./generate-TorControlCommands.py") (Readable scenario_source))))
    as (body & H1 & H2 & _); [vm_compute; reflexivity | vm_compute; reflexivity |].
  exists body. split; [exact H1 | exact H2].
Defined.

(** * Further properties *)

(** ** The first way of matching *)

Lemma match_at_first (r : regex) (s : text) :
  match_at r s
  = option_map (fun w => (length s - length (fst w), snd w)) (first_way r s []).
Proof.
  unfold match_at, first_way. now destruct (ways r s []) as [|[s' c] l].
Qed.

Lemma first_Lit (p s : text) (c : captures) :
  first_way (Lit p) (p ++ s) c = Some (s, c).
Proof. unfold first_way. cbn [ways]. now rewrite strip_prefix_app. Qed.

Lemma first_Star (k : cls) (u s : text) (c : captures) :
  forallb (accepts k) u = true -> stops k s = true ->
  first_way (Star k) (u ++ s) c = Some (s, c).
Proof.
  intros Hu Hs. unfold first_way. cbn [ways].
  now destruct (star_ways_hd k u s Hu Hs) as (others & ->).
Qed.

Lemma first_Group_Plus (n : nat) (k : cls) (u s : text) (c : captures) :
  u <> [] -> forallb (accepts k) u = true -> stops k s = true ->
  first_way (Group n (Plus k)) (u ++ s) c = Some (s, (n, u) :: c).
Proof.
  intros Hne Hu Hs. unfold first_way. cbn [ways].
  destruct (plus_ways_hd k u s Hne Hu Hs) as (others & ->).
  cbn [map hd_error fst snd]. now rewrite consumed_app.
Qed.

Lemma first_Seq (a b : regex) (s : text) (c : captures) (w w' : text * captures) :
  first_way a s c = Some w -> first_way b (fst w) (snd w) = Some w' ->
  first_way (Seq a b) s c = Some w'.
Proof.
  unfold first_way. cbn [ways].
  destruct (ways a s c) as [|w0 l]; [easy|]. intros [= ->].
  cbn [flat_map]. now destruct (ways b (fst w) (snd w)).
Qed.

(** When the first way of [a] leads nowhere, the matcher backtracks to the
    second. *)
Lemma first_Seq_backtrack (a b : regex) (s : text) (c : captures)
      (w1 w2 w' : text * captures) (l : list (text * captures)) :
  ways a s c = w1 :: w2 :: l -> ways b (fst w1) (snd w1) = [] ->
  first_way b (fst w2) (snd w2) = Some w' ->
  first_way (Seq a b) s c = Some w'.
Proof.
  unfold first_way. cbn [ways]. intros -> H1. cbn [flat_map]. rewrite H1.
  cbn [app]. now destruct (ways b (fst w2) (snd w2)).
Qed.

Lemma star_ways_stop (k : cls) (s : text) :
  stops k s = true -> star_ways k s = [s].
Proof.
  destruct s as [|c s]; simpl; [reflexivity|].
  intros H. apply negb_true_iff in H. now rewrite H.
Qed.

Lemma star_ways_hd2 (k : cls) (u r : text) (c : char) :
  forallb (accepts k) u = true -> accepts k c = true -> stops k r = true ->
  exists others, star_ways k (u ++ c :: r) = r :: (c :: r) :: others.
Proof.
  intros Hu Hc Hr. induction u as [|d u IH]; simpl in *.
  - rewrite Hc, (star_ways_stop k r Hr). now exists [].
  - apply andb_true_iff in Hu as [-> Hu].
    destruct (IH Hu) as (others & ->). now eexists.
Qed.

(** ** Where the table is searched *)

Lemma prefix_inside (lit v rest w : text) :
  v <> [] -> v ++ lit ++ rest = lit ++ w ->
  exists b, v ++ removelast lit = lit ++ b.
Proof.
  intros Hv H.
  destruct lit as [|x lit0] eqn:Elit; [exists v; simpl; now rewrite app_nil_r|].
  rewrite <- Elit in *.
  assert (lit <> []) as Hne by (rewrite Elit; discriminate). clear Elit.
  pose proof (app_removelast_last x Hne) as Hp.
  remember (removelast lit) as rl eqn:Erl. clear Erl.
  remember (last lit x) as z eqn:Ez. clear Ez.
  assert (length lit <= length (v ++ rl)) as Hlen.
  { rewrite Hp, !length_app. simpl. destruct v; [easy|simpl; lia]. }
  exists (skipn (length lit) (v ++ rl)).
  rewrite <- (firstn_skipn (length lit) (v ++ rl)) at 1. f_equal.
  apply (f_equal (firstn (length lit))) in H.
  rewrite (firstn_app (length lit) lit w), firstn_all, Nat.sub_diag in H.
  simpl in H. rewrite app_nil_r in H.
  transitivity (firstn (length lit) (v ++ lit ++ rest)); [|exact H].
  assert (v ++ lit ++ rest = (v ++ rl) ++ z :: rest) as ->
    by (rewrite Hp, <- !app_assoc; reflexivity).
  rewrite (firstn_app (length lit) (v ++ rl)).
  replace (length lit - length (v ++ rl)) with 0 by lia.
  simpl. now rewrite app_nil_r.
Qed.

Lemma TABLE_starts (s : text) :
  match_at TABLE s <> None -> exists w, s = DECLARATION ++ w.
Proof.
  intros H. destruct (match_at TABLE s) as [[len caps]|] eqn:E; [|easy].
  apply match_at_Some in E as (s' & Hin & _).
  apply TABLE_ways_shape in Hin as (ws1 & ws2 & nls & g & -> & _).
  now eexists.
Qed.

Lemma TABLE_no_earlier (above rest : text) :
  first_declaration above = true ->
  forall u v, above = u ++ v -> v <> [] ->
              match_at TABLE (v ++ DECLARATION ++ rest) = None.
Proof.
  unfold first_declaration. intros H u v -> Hv. apply negb_true_iff in H.
  destruct (match_at TABLE (v ++ DECLARATION ++ rest)) eqn:E; [exfalso|reflexivity].
  destruct (TABLE_starts (v ++ DECLARATION ++ rest)) as (w & Hw); [now rewrite E|].
  destruct (prefix_inside DECLARATION v rest w Hv Hw) as (b & Hb).
  apply (contains_false _ _ H u b). now rewrite <- app_assoc, Hb.
Qed.

Lemma search_from_at (r : regex) (above s : text) (len : nat) (caps : captures) :
  (forall u v, above = u ++ v -> v <> [] -> match_at r (v ++ s) = None) ->
  match_at r s = Some (len, caps) ->
  forall pos,
    search_from r (above ++ s) pos
    = Some (MatchObj (pos + length above) (pos + length above + len) caps).
Proof.
  intros Hnone Hm. induction above as [|c above IH]; intros pos.
  - simpl. destruct s; simpl; rewrite Hm; now rewrite Nat.add_0_r.
  - pose proof (Hnone [] (c :: above) eq_refl) as H0.
    cbn [app search_from] in *. rewrite H0 by discriminate.
    rewrite IH.
    + simpl. do 2 f_equal; lia.
    + intros u v -> Hv. now apply (Hnone (c :: u) v).
Qed.

Lemma starts_row_spec (table rest : text) :
  starts_row table = true -> table <> [] /\ stops NEWLINE (table ++ rest) = true.
Proof. destruct table as [|c table]; simpl; [easy|]. now split. Qed.

(** The match of [TABLE] at a declaration whose braces hold newlines and then
    a table. *)
Lemma TABLE_first_way (ws1 ws2 nls table below : text) :
  forallb isspace ws1 = true -> forallb isspace ws2 = true ->
  forallb (accepts NEWLINE) nls = true ->
  starts_row table = true -> forallb (accepts NOT_BRACE) table = true ->
  first_way TABLE
    (DECLARATION ++ ws1 ++ str "=" ++ ws2 ++ str "{" ++ nls ++ table ++ str "}" ++ below) []
  = Some (below, [(1, table)]).
Proof.
  intros H1 H2 Hnls Hrow Htable.
  destruct (starts_row_spec table (str "}" ++ below) Hrow) as (Hne & Hstop).
  unfold TABLE.
  eapply first_Seq; [apply first_Lit|]. cbn [fst snd].
  eapply first_Seq; [apply first_Star; [exact H1|reflexivity]|]. cbn [fst snd].
  eapply first_Seq; [apply first_Lit|]. cbn [fst snd].
  eapply first_Seq; [apply first_Star; [exact H2|reflexivity]|]. cbn [fst snd].
  eapply first_Seq; [apply first_Lit|]. cbn [fst snd].
  eapply first_Seq; [apply first_Star; [exact Hnls|exact Hstop]|]. cbn [fst snd].
  eapply first_Seq; [apply first_Group_Plus; [exact Hne|exact Htable|reflexivity]|].
  cbn [fst snd]. apply first_Lit.
Qed.

(** The match of [TABLE] at a declaration whose braces hold newlines only:
    the repetition of newlines gives the last one back to the group. *)
Lemma TABLE_first_way_blank (ws1 ws2 u below : text) :
  forallb isspace ws1 = true -> forallb isspace ws2 = true ->
  forallb (accepts NEWLINE) u = true ->
  first_way TABLE
    (DECLARATION ++ ws1 ++ str "=" ++ ws2 ++ str "{" ++ (u ++ [nl]) ++ str "}" ++ below) []
  = Some (below, [(1, [nl])]).
Proof.
  intros H1 H2 Hu. unfold TABLE.
  eapply first_Seq; [apply first_Lit|]. cbn [fst snd].
  eapply first_Seq; [apply first_Star; [exact H1|reflexivity]|]. cbn [fst snd].
  eapply first_Seq; [apply first_Lit|]. cbn [fst snd].
  eapply first_Seq; [apply first_Star; [exact H2|reflexivity]|]. cbn [fst snd].
  eapply first_Seq; [apply first_Lit|]. cbn [fst snd].
  rewrite <- app_assoc.
  destruct (star_ways_hd2 NEWLINE u (str "}" ++ below) nl Hu eq_refl eq_refl)
    as (others & Hways).
  eapply first_Seq_backtrack.
  - cbn [ways]. change ([nl] ++ str "}" ++ below) with (nl :: str "}" ++ below).
    fold NEWLINE. rewrite Hways. cbn [map]. reflexivity.
  - reflexivity.
  - cbn [fst snd].
    eapply first_Seq;
      [apply (first_Group_Plus 1 (NoneOf [(chr "}", chr "}")]) [nl] (str "}" ++ below));
       [discriminate|reflexivity|reflexivity]|].
    cbn [fst snd]. apply first_Lit.
Qed.

Lemma span_unique (P : char -> bool) (u u' x x' : text) (a a' : char) :
  forallb P u = true -> forallb P u' = true -> P a = false -> P a' = false ->
  u ++ a :: x = u' ++ a' :: x' -> u = u' /\ a = a' /\ x = x'.
Proof.
  revert u'. induction u as [|c u IH]; intros [|c' u'] Hu Hu' Ha Ha'; simpl in *.
  - now intros [= -> ->].
  - intros [= -> _]. apply andb_true_iff in Hu' as [Hc _]. congruence.
  - intros [= -> _]. apply andb_true_iff in Hu as [Hc _]. congruence.
  - intros [= -> H]. apply andb_true_iff in Hu as [_ Hu].
    apply andb_true_iff in Hu' as [_ Hu'].
    destruct (IH u' Hu Hu' Ha Ha' H) as (-> & -> & ->). auto.
Qed.

(** With nothing between the braces the pattern does not match at the
    declaration: the group needs a character. *)
Lemma TABLE_empty_braces (ws1 ws2 below : text) :
  forallb isspace ws1 = true -> forallb isspace ws2 = true ->
  match_at TABLE (DECLARATION ++ ws1 ++ str "=" ++ ws2 ++ str "{" ++ str "}" ++ below)
  = None.
Proof.
  intros H1 H2. apply match_at_None.
  destruct (ways TABLE _ []) as [|[s' c'] l] eqn:E; [reflexivity|exfalso].
  assert (In (s', c') (ways TABLE
            (DECLARATION ++ ws1 ++ str "=" ++ ws2 ++ str "{" ++ str "}" ++ below) []))
    as Hin by (rewrite E; now left).
  apply TABLE_ways_shape in Hin
    as (ws1' & ws2' & nls & g & Hs & H1' & H2' & Hnls & Hne & Hg & _).
  apply app_inv_head in Hs.
  apply (span_unique isspace ws1 ws1' _ _ (chr "=") (chr "=") H1 H1' eq_refl eq_refl)
    in Hs as (_ & _ & Hs).
  apply (span_unique isspace ws2 ws2' _ _ (chr "{") (chr "{") H2 H2' eq_refl eq_refl)
    in Hs as (_ & _ & Hs).
  destruct nls as [|c nls].
  - destruct g as [|d g]; [easy|]. injection Hs as <- _. discriminate Hg.
  - injection Hs as <- _. discriminate Hnls.
Qed.

Lemma TABLE_no_later (s : text) :
  last_declaration s = true ->
  forall l v, s = l ++ v -> l <> [] -> match_at TABLE v = None.
Proof.
  unfold last_declaration. intros H l v -> Hl. apply negb_true_iff in H.
  destruct (match_at TABLE v) eqn:E; [exfalso|reflexivity].
  destruct (TABLE_starts v) as (w & ->); [now rewrite E|].
  destruct l as [|d l]; [easy|]. simpl in H.
  now apply (contains_false _ _ H l w).
Qed.

Lemma search_TABLE_empty_braces (above ws1 ws2 below : text) :
  first_declaration above = true ->
  forallb isspace ws1 = true -> forallb isspace ws2 = true ->
  last_declaration (DECLARATION ++ ws1 ++ str "=" ++ ws2 ++ str "{" ++ str "}" ++ below)
  = true ->
  search TABLE (source_with_table above ws1 ws2 [] below) = None.
Proof.
  intros Habove H1 H2 Hlast. unfold source_with_table. cbn [app].
  apply search_from_None. intros u v Huv.
  apply app_eq_app in Huv as (l & [(Ha & ->)|(-> & HX)]).
  - destruct l as [|d l].
    + now apply TABLE_empty_braces.
    + now apply (TABLE_no_earlier _ _ Habove u (d :: l)).
  - destruct l as [|d l].
    + simpl in HX. subst v. now apply TABLE_empty_braces.
    + now apply (TABLE_no_later _ Hlast (d :: l) v).
Qed.

(** Without an equals sign, an opening brace or a closing brace the pattern
    matches nowhere. *)
Lemma search_TABLE_incomplete (contents : text) :
  contains (str "=") contents && contains (str "{") contents
  && contains (str "}") contents = false ->
  search TABLE contents = None.
Proof.
  intros H. apply search_from_None. intros u v ->. apply match_at_None.
  destruct (ways TABLE v []) as [|[s' c'] l] eqn:E; [reflexivity|exfalso].
  assert (In (s', c') (ways TABLE v [])) as Hin by (rewrite E; now left).
  apply TABLE_ways_shape in Hin as (ws1 & ws2 & nls & g & -> & _).
  apply andb_false_iff in H as [H|H]; [apply andb_false_iff in H as [H|H]|].
  - apply (contains_false _ _ H (u ++ DECLARATION ++ ws1)
             (ws2 ++ str "{" ++ nls ++ g ++ str "}" ++ s')).
    unfold DECLARATION. now rewrite <- !app_assoc.
  - apply (contains_false _ _ H (u ++ DECLARATION ++ ws1 ++ str "=" ++ ws2)
             (nls ++ g ++ str "}" ++ s')).
    unfold DECLARATION. now rewrite <- !app_assoc.
  - apply (contains_false _ _ H
             (u ++ DECLARATION ++ ws1 ++ str "=" ++ ws2 ++ str "{" ++ nls ++ g) s').
    unfold DECLARATION. now rewrite <- !app_assoc.
Qed.

Lemma captured_at (above s : text) (len : nat) (g : text) :
  (forall u v, above = u ++ v -> v <> [] -> match_at TABLE (v ++ s) = None) ->
  match_at TABLE s = Some (len, [(1, g)]) ->
  search TABLE (above ++ s)
  = Some (MatchObj (length above) (length above + len) [(1, g)]) /\
  captured (above ++ s) = Some g.
Proof.
  intros Hnone Hm. unfold captured, search.
  rewrite (search_from_at TABLE above s len [(1, g)] Hnone Hm 0). now split.
Qed.

(** ** White space and entries *)

Lemma isspace_not_printable (c : char) : isspace c = true -> printable c = false.
Proof.
  unfold isspace, printable, in_range, char_eqb.
  rewrite !orb_true_iff, !andb_true_iff, !N.leb_le, !N.eqb_eq.
  intros H. apply andb_false_iff. rewrite !N.leb_gt. lia.
Qed.

Lemma printable_not_space (x c : char) :
  printable x = true -> isspace c = true -> char_eqb x c = false.
Proof.
  intros Hx Hc. apply isspace_not_printable in Hc.
  destruct (char_eqb x c) eqn:E; [|reflexivity].
  apply char_eqb_eq in E. congruence.
Qed.

Lemma IDENT_printable (c : char) : accepts IDENT c = true -> printable c = true.
Proof.
  unfold accepts, IDENT, in_ranges, existsb, printable, in_range, chr.
  cbn [fst snd]. simpl N_of_ascii.
  rewrite !orb_true_iff, !andb_true_iff, !N.leb_le. lia.
Qed.

Lemma isspace_not_IDENT (c : char) : isspace c = true -> accepts IDENT c = false.
Proof.
  intros H. apply isspace_not_printable in H.
  destruct (accepts IDENT c) eqn:E; [|reflexivity].
  apply IDENT_printable in E. congruence.
Qed.

Lemma strip_prefix_snoc (p u : text) (c : char) :
  forallb printable p = true -> isspace c = true ->
  strip_prefix p (u ++ [c]) = option_map (fun s' => s' ++ [c]) (strip_prefix p u).
Proof.
  intros Hp Hc. revert u. induction p as [|x p IH]; intros u; simpl in *; [reflexivity|].
  apply andb_true_iff in Hp as [Hx Hp].
  destruct u as [|y u]; simpl.
  - now rewrite (printable_not_space x c Hx Hc).
  - destruct (char_eqb x y); [now apply IH | reflexivity].
Qed.

(** White space at the end of a text starts no entry and ends none. *)
Lemma entry_start_snoc (s : text) (c : char) :
  isspace c = true -> entry_start (s ++ [c]) = entry_start s.
Proof.
  intros Hc. unfold entry_start, tags. cbn [existsb].
  rewrite !(strip_prefix_snoc _ s c) by (assumption || reflexivity).
  repeat match goal with
  | |- context [strip_prefix ?p s] =>
      destruct (strip_prefix p s) as [[|? ?]|]; cbn [option_map app]
  end; rewrite ?(isspace_not_IDENT c Hc); reflexivity.
Qed.

Lemma has_entry_snoc (s : text) (c : char) :
  isspace c = true -> has_entry (s ++ [c]) = has_entry s.
Proof.
  intros Hc. induction s as [|d s IH].
  - change (has_entry ([] ++ [c])) with (entry_start ([] ++ [c]) || has_entry []).
    rewrite (entry_start_snoc [] c Hc). reflexivity.
  - cbn [app has_entry]. rewrite IH.
    change (d :: s ++ [c]) with ((d :: s) ++ [c]).
    now rewrite (entry_start_snoc (d :: s) c Hc).
Qed.

(** In a line that holds an entry, the last one splits the line. *)
Lemma last_entry_exists (line : text) :
  forallb (accepts Dot) line = true -> has_entry line = true ->
  exists pre tag ident rest,
    line = pre ++ tag ++ str "(" ++ ident ++ rest /\
    entry_line pre tag ident rest = true.
Proof.
  induction line as [|c line IH]; intros Hline Hentry; [discriminate|].
  cbn [forallb] in Hline. apply andb_true_iff in Hline as [Hc Hline].
  destruct (has_entry line) eqn:Elater.
  - destruct (IH Hline eq_refl) as (pre & tag & ident & rest & -> & He).
    exists (c :: pre), tag, ident, rest. split; [reflexivity|].
    unfold entry_line in *. cbn [forallb]. now rewrite Hc.
  - cbn [has_entry] in Hentry. rewrite Elater, orb_false_r in Hentry.
    unfold entry_start in Hentry. apply existsb_exists in Hentry as (tag & Htag & H).
    destruct (strip_prefix (tag ++ str "(") (c :: line)) as [[|d X]|] eqn:E;
      try discriminate.
    apply strip_prefix_Some in E.
    destruct (span IDENT X) as (u & Y & -> & Hu & HY).
    exists [], tag, (d :: u), Y.
    assert (c :: line = tag ++ str "(" ++ (d :: u) ++ Y) as Heq
      by (rewrite E, <- app_assoc; reflexivity).
    split; [exact Heq|].
    assert (forallb (accepts Dot) (tag ++ str "(" ++ (d :: u) ++ Y) = true) as Hall
      by (rewrite <- Heq; cbn [forallb]; now rewrite Hc).
    rewrite !forallb_app in Hall.
    apply andb_true_iff in Hall as [_ Hall]. apply andb_true_iff in Hall as [_ Hall].
    apply andb_true_iff in Hall as [_ HYdot].
    unfold entry_line. cbn [app] in Heq |- *. rewrite <- Heq. cbn [tl forallb].
    rewrite Elater, H, Hu, HY, HYdot.
    assert (existsb (text_eqb tag) tags = true) as ->
      by (apply existsb_exists; exists tag; split; [assumption|apply text_eqb_refl]).
    reflexivity.
Qed.

(** A line without a newline gives no row, or the row of its last entry. *)
Lemma findall_one_line (line : text) :
  forallb (accepts Dot) line = true ->
  (has_entry line = false /\ findall ROW line = []) \/
  (exists pre tag ident rest,
      line = pre ++ tag ++ str "(" ++ ident ++ rest /\
      entry_line pre tag ident rest = true /\
      findall ROW line = [(tag, ident)]).
Proof.
  intros Hline. destruct (has_entry line) eqn:E.
  - right. destruct (last_entry_exists line Hline E) as (pre & tag & ident & rest & -> & He).
    exists pre, tag, ident, rest. repeat split; [assumption|].
    now apply entry_line_findall.
  - left. split; [reflexivity|]. now apply ROW_findall_none.
Qed.

(** A text is one line, or some text, a newline and a last line. *)
Lemma last_line (t : text) :
  forallb (accepts Dot) t = true \/
  exists a line, t = a ++ nl :: line /\ forallb (accepts Dot) line = true.
Proof.
  induction t as [|c t [IH|(a & line & -> & Hline)]].
  - now left.
  - destruct (char_eqb c nl) eqn:E.
    + right. apply char_eqb_eq in E. subst c. now exists [], t.
    + left. cbn [forallb accepts]. now rewrite E.
  - right. now exists (c :: a), line.
Qed.

Lemma entry_line_snoc (pre tag ident rest : text) (c : char) :
  entry_line pre tag ident rest = true ->
  isspace c = true -> char_eqb c nl = false ->
  entry_line pre tag ident (rest ++ [c]) = true.
Proof.
  unfold entry_line. rewrite !andb_true_iff, !negb_true_iff.
  intros ((((((Hpre & Htag) & Hne) & Hident) & Hstop) & Hrest) & Hlater) Hc Hnl.
  repeat split; try assumption.
  - destruct rest; cbn [app stops] in *; [|assumption].
    now rewrite (isspace_not_IDENT c Hc).
  - rewrite forallb_app, Hrest. cbn [forallb accepts]. now rewrite Hnl.
  - destruct tag as [|t0 tag]; [discriminate Htag|].
    cbn [app tl] in *.
    replace (tag ++ str "(" ++ ident ++ rest ++ [c])
      with ((tag ++ str "(" ++ ident ++ rest) ++ [c])
      by now rewrite <- !app_assoc.
    now rewrite has_entry_snoc.
Qed.

Lemma findall_line_snoc (line : text) (c : char) :
  forallb (accepts Dot) line = true ->
  isspace c = true -> char_eqb c nl = false ->
  findall ROW (line ++ [c]) = findall ROW line.
Proof.
  intros Hline Hc Hnl.
  destruct (findall_one_line line Hline)
    as [(Hno & ->)|(pre & tag & ident & rest & -> & He & ->)].
  - apply ROW_findall_none. unfold no_entry_in. now rewrite has_entry_snoc.
  - replace ((pre ++ tag ++ str "(" ++ ident ++ rest) ++ [c])
      with (pre ++ tag ++ str "(" ++ ident ++ rest ++ [c])
      by now rewrite <- !app_assoc.
    apply entry_line_findall. now apply entry_line_snoc.
Qed.

Lemma findall_snoc_space (t : text) (c : char) :
  isspace c = true -> findall ROW (t ++ [c]) = findall ROW t.
Proof.
  intros Hc. destruct (char_eqb c nl) eqn:Hnl.
  - apply char_eqb_eq in Hnl. subst c.
    rewrite (findall_lines ROW t [] ROW_nl_free ROW_match_nil).
    change (findall ROW []) with (@nil (text * text)). apply app_nil_r.
  - destruct (last_line t) as [Hline|(a & line & -> & Hline)].
    + now apply findall_line_snoc.
    + rewrite <- app_assoc. cbn [app].
      rewrite !(findall_lines ROW a _ ROW_nl_free ROW_match_nil).
      f_equal. now apply findall_line_snoc.
Qed.

(** White space after the last row changes no row. *)
Lemma findall_app_space (ws t : text) :
  forallb isspace ws = true -> findall ROW (t ++ ws) = findall ROW t.
Proof.
  revert t. induction ws as [|c ws IH]; intros t H; [now rewrite app_nil_r|].
  cbn [forallb] in H. apply andb_true_iff in H as [Hc Hws].
  change (t ++ c :: ws) with (t ++ [c] ++ ws). rewrite app_assoc.
  rewrite (IH (t ++ [c]) Hws). now apply findall_snoc_space.
Qed.

Lemma findall_rstrip (t : text) : findall ROW (rstrip t) = findall ROW t.
Proof.
  destruct (rstrip_spec t) as (ws & Ht & Hws).
  rewrite Ht at 2. symmetry. now apply findall_app_space.
Qed.

(** There are no more rows than lines. *)
Lemma findall_length (t : text) :
  length (findall ROW t) <= S (count_occ N.eq_dec t nl).
Proof.
  remember (length t) as n eqn:Hn. revert t Hn.
  induction n as [n IH] using lt_wf_ind. intros t Hn.
  destruct (last_line t) as [Hline|(a & line & -> & Hline)].
  - destruct (findall_one_line t Hline)
      as [(_ & ->)|(pre & tag & ident & rest & _ & _ & ->)]; simpl; lia.
  - rewrite (findall_lines ROW a line ROW_nl_free ROW_match_nil).
    rewrite length_app, count_occ_app.
    assert (length (findall ROW a) <= S (count_occ N.eq_dec a nl)) as Ha.
    { apply (IH (length a)); [|reflexivity]. subst n. rewrite length_app. simpl. lia. }
    assert (length (findall ROW line) <= 1) as Hl.
    { destruct (findall_one_line line Hline)
        as [(_ & ->)|(pre & tag & ident & rest & _ & _ & ->)]; simpl; lia. }
    rewrite count_occ_cons_eq by reflexivity.
    apply Nat.le_trans with (S (count_occ N.eq_dec a nl) + 1).
    + now apply Nat.add_le_mono.
    + rewrite Nat.add_1_r, Nat.add_succ_r. apply le_n_S, le_n_S, Nat.le_add_r.
Qed.

(** ** The lines of the output *)

Lemma count_frame (c : char) (a b q e f name value : text) :
  count_occ N.eq_dec (a ++ name ++ b ++ q ++ value ++ q ++ e ++ f) c
  = count_occ N.eq_dec name c + count_occ N.eq_dec value c
    + count_occ N.eq_dec (a ++ [] ++ b ++ q ++ [] ++ q ++ e ++ f) c.
Proof.
  unfold text, char in *. rewrite !count_occ_app. simpl. lia.
Qed.

Lemma count_java_const (c : char) (name value : text) :
  count_occ N.eq_dec (java_const name value) c
  = count_occ N.eq_dec name c + count_occ N.eq_dec value c
    + count_occ N.eq_dec (java_const [] []) c.
Proof. unfold java_const. apply count_frame. Qed.

Lemma count_upper_name (c : char) (x : text) :
  accepts UPPER_IDENT c = false ->
  forallb (accepts IDENT) x = true ->
  count_occ N.eq_dec (upper x) c = 0.
Proof.
  intros Hc Hx. apply count_occ_not_In. intros Hin.
  apply upper_IDENT in Hx. rewrite forallb_forall in Hx.
  specialize (Hx c Hin). congruence.
Qed.

Lemma count_row_lines (c : char) (row : text * text) :
  accepts UPPER_IDENT c = false -> char_eqb c (chr "+") = false ->
  forallb (accepts IDENT) (snd row) = true ->
  count_occ N.eq_dec (row_lines row) c
  = (if text_eqb (fst row) (str "OBSOLETE")
     then count_occ N.eq_dec deprecated_marker c else 0)
    + count_occ N.eq_dec (java_const [] []) c.
Proof.
  intros Hc Hplus Hx. pose proof (count_upper_name c (snd row) Hc Hx) as Hu.
  assert (count_occ N.eq_dec (str "+") c = 0) as Hp.
  { apply count_occ_not_In. intros [H|[]]. subst c. discriminate Hplus. }
  unfold row_lines.
  destruct (text_eqb (fst row) (str "OBSOLETE")),
           (text_eqb (fst row) (str "MULTLINE"));
    rewrite ?count_occ_app, count_java_const, ?count_occ_app;
    unfold text, char in *; rewrite ?Hu, ?Hp; cbn [count_occ]; lia.
Qed.

Lemma count_rows (c : char) (rows : list (text * text)) :
  accepts UPPER_IDENT c = false -> char_eqb c (chr "+") = false ->
  Forall (fun row => forallb (accepts IDENT) (snd row) = true) rows ->
  count_occ N.eq_dec (concat (map row_lines rows)) c
  = length (filter (fun row => text_eqb (fst row) (str "OBSOLETE")) rows)
    * count_occ N.eq_dec deprecated_marker c
    + length rows * count_occ N.eq_dec (java_const [] []) c.
Proof.
  intros Hc Hplus Hrows. induction Hrows as [|row rows Hrow _ IH]; [reflexivity|].
  pose proof (count_row_lines c row Hc Hplus Hrow) as Hr.
  cbn [map concat filter length]. rewrite count_occ_app.
  unfold text, char in *. rewrite IH, Hr.
  destruct (text_eqb (fst row) (str "OBSOLETE")); cbn [length]; lia.
Qed.

(** ** Properties of the search, of the rows and of the output *)

(** X1. When the first place of the file at which the declared name of the
    table stands is followed by white space, the equals sign, white space, an
    opening brace, newlines, and a table that is not empty, starts with no
    newline and holds no closing brace before the brace that closes it, then
    that table is the text captured; and what the file holds above the
    declaration and after the closing brace, entries included, has no effect
    on the output. *)
Theorem X1_table_located (file above ws1 ws2 nls table below : text) :
  table_layout above ws1 ws2 nls table = true ->
  let contents := source_with_table above ws1 ws2 (nls ++ table) below in
  captured contents = Some table /\
  (exists m, search TABLE contents = Some m /\ m_start m = length above) /\
  run file (Readable contents)
  = (Returned tt,
     generated_by file ++ concat (map row_lines (findall ROW (rstrip table))) ++ [nl]).
Proof.
  intros H contents. unfold table_layout in H. rewrite !andb_true_iff in H.
  destruct H as (((((Habove & H1) & H2) & Hnls) & Hrow) & Htable).
  assert (contents
          = above ++ DECLARATION ++ ws1 ++ str "=" ++ ws2 ++ str "{" ++ nls ++ table
                  ++ str "}" ++ below) as Hc
    by (unfold contents, source_with_table; now rewrite <- !app_assoc).
  destruct (captured_at above
              (DECLARATION ++ ws1 ++ str "=" ++ ws2 ++ str "{" ++ nls ++ table
                           ++ str "}" ++ below)
              (length (DECLARATION ++ ws1 ++ str "=" ++ ws2 ++ str "{" ++ nls ++ table
                                   ++ str "}" ++ below) - length below)
              table) as (Hsearch & Hcap).
  - now apply TABLE_no_earlier.
  - rewrite match_at_first, (TABLE_first_way ws1 ws2 nls table below) by assumption.
    reflexivity.
  - rewrite <- Hc in Hsearch, Hcap. split; [exact Hcap|]. split.
    + eexists. split; [exact Hsearch|reflexivity].
    + now apply run_located.
Qed.

Lemma X1_table_located_witness :
  table_layout (join_lines [str "/* ONE_LINE(above) */"; str "static const "])
               [nl] [chr " "; 160%N] [nl; nl]
               (join_lines [str "  ONE_LINE(getinfo, 0),"; str "  MULTLINE(loadconf, 0),"; []])
  = true /\
  run (str "gen.py") (Readable layout_source)
  = (Returned tt,
     generated_by (str "gen.py")
     ++ java_const (str "GETINFO") (str "GETINFO")
     ++ java_const (str "LOADCONF") (str "+LOADCONF")
     ++ [nl]).
Proof.
  split; [vm_compute; reflexivity|].
  destruct (X1_table_located (str "gen.py")
              (join_lines [str "/* ONE_LINE(above) */"; str "static const "])
              [nl] [chr " "; 160%N] [nl; nl]
              (join_lines [str "  ONE_LINE(getinfo, 0),"; str "  MULTLINE(loadconf, 0),"; []])
              (join_lines [str ";"; str "static const x_t OTHER[] = {";
                           str "  ONE_LINE(below)"; str "};"]))
    as (_ & _ & Hrun); [vm_compute; reflexivity|].
  unfold layout_source. rewrite Hrun. vm_compute. reflexivity.
Defined.

(** X2. An initializer with nothing between its braces is not taken for the
    table: when the file holds no other declaration of the table, the run
    ends with the AttributeError of a failed search and writes nothing. *)
Theorem X2_empty_initializer (file above ws1 ws2 below : text) :
  first_declaration above = true ->
  forallb isspace ws1 = true -> forallb isspace ws2 = true ->
  last_declaration (DECLARATION ++ ws1 ++ str "=" ++ ws2 ++ str "{" ++ str "}" ++ below)
  = true ->
  search TABLE (source_with_table above ws1 ws2 [] below) = None /\
  run file (Readable (source_with_table above ws1 ws2 [] below))
  = (Raised AttributeError, []).
Proof.
  intros Habove H1 H2 Hlast.
  pose proof (search_TABLE_empty_braces above ws1 ws2 below Habove H1 H2 Hlast) as Hs.
  split; [exact Hs|]. rewrite run_spec. unfold captured. now rewrite Hs.
Qed.

Lemma X2_empty_initializer_witness :
  source_with_table (str "static const ") (str " ") (str " ") [] (str ";")
  = str "static const control_cmd_def_t CONTROL_COMMANDS[] = {};" /\
  run (str "gen.py")
      (Readable (str "static const control_cmd_def_t CONTROL_COMMANDS[] = {};"))
  = (Raised AttributeError, []).
Proof.
  split; [reflexivity|].
  apply (X2_empty_initializer (str "gen.py") (str "static const ") (str " ") (str " ")
           (str ";")); vm_compute; reflexivity.
Defined.

(** X3. When the braces of the first declaration hold newlines only, the
    search succeeds all the same: the repetition of newlines gives the last
    one back, the captured text is that single newline, and the output is the
    header alone. *)
Theorem X3_blank_table (file above ws1 ws2 below : text) (n : nat) :
  first_declaration above = true ->
  forallb isspace ws1 = true -> forallb isspace ws2 = true ->
  let contents := source_with_table above ws1 ws2 (repeat nl (S n)) below in
  captured contents = Some [nl] /\
  run file (Readable contents) = (Returned tt, generated_by file ++ [nl]).
Proof.
  intros Habove H1 H2 contents.
  assert (contents
          = above ++ DECLARATION ++ ws1 ++ str "=" ++ ws2 ++ str "{"
                  ++ (repeat nl n ++ [nl]) ++ str "}" ++ below) as Hc
    by (unfold contents, source_with_table; now rewrite <- repeat_cons).
  assert (forall k, forallb (accepts NEWLINE) (repeat nl k) = true) as Hk
    by (intros k; induction k as [|k IHk]; [reflexivity|exact IHk]).
  pose proof (Hk n) as Hn.
  destruct (captured_at above
              (DECLARATION ++ ws1 ++ str "=" ++ ws2 ++ str "{"
                           ++ (repeat nl n ++ [nl]) ++ str "}" ++ below)
              (length (DECLARATION ++ ws1 ++ str "=" ++ ws2 ++ str "{"
                                   ++ (repeat nl n ++ [nl]) ++ str "}" ++ below)
               - length below)
              [nl]) as (_ & Hcap).
  - now apply TABLE_no_earlier.
  - rewrite match_at_first, (TABLE_first_way_blank ws1 ws2 (repeat nl n) below)
      by assumption.
    reflexivity.
  - rewrite <- Hc in Hcap. split; [exact Hcap|].
    rewrite (run_located file contents [nl] Hcap). reflexivity.
Qed.

Lemma X3_blank_table_witness :
  run (str "gen.py")
      (Readable (source_with_table (str "static const ") (str " ") [nl] [nl; nl; nl]
                                   (str ";")))
  = (Returned tt, generated_by (str "gen.py") ++ [nl]).
Proof.
  apply (X3_blank_table (str "gen.py") (str "static const ") (str " ") [nl] (str ";") 2);
    vm_compute; reflexivity.
Defined.

(** X4. A file in which no equals sign, no opening brace or no closing brace
    occurs has no table for the script, whatever else it holds: the run ends
    with the AttributeError of a failed search and writes nothing. *)
Theorem X4_unterminated (file contents : text) :
  contains (str "=") contents && contains (str "{") contents
  && contains (str "}") contents = false ->
  search TABLE contents = None /\
  run file (Readable contents) = (Raised AttributeError, []).
Proof.
  intros H. pose proof (search_TABLE_incomplete contents H) as Hs.
  split; [exact Hs|]. rewrite run_spec. unfold captured. now rewrite Hs.
Qed.

Lemma X4_unterminated_witness :
  run (str "gen.py")
      (Readable (join_lines [str "static const control_cmd_def_t CONTROL_COMMANDS[] =";
                             str "{"; str "  ONE_LINE(getinfo, 0),"]))
  = (Raised AttributeError, []).
Proof.
  apply (X4_unterminated (str "gen.py")). vm_compute. reflexivity.
Defined.

(** X5. A line gives at most one row: none when no entry starts in it, and
    otherwise the row of the last entry that starts in it, whatever stands
    before.  So a text never gives more rows than it has lines. *)
Theorem X5_one_row_per_line :
  (forall line,
      forallb (accepts Dot) line = true ->
      (has_entry line = false /\ findall ROW line = []) \/
      (exists pre tag ident rest,
          line = pre ++ tag ++ str "(" ++ ident ++ rest /\
          entry_line pre tag ident rest = true /\
          findall ROW line = [(tag, ident)])) /\
  (forall t, length (findall ROW t) <= S (count_occ N.eq_dec t nl)).
Proof. split; [exact findall_one_line | exact findall_length]. Qed.

Lemma X5_one_row_per_line_witness :
  findall ROW (str "  ONE_LINE(getinfo, 0), OBSOLETE(usefeature),")
  = [(str "OBSOLETE", str "usefeature")] /\
  ((has_entry (str "  ONE_LINE(getinfo, 0), OBSOLETE(usefeature),") = false /\
    findall ROW (str "  ONE_LINE(getinfo, 0), OBSOLETE(usefeature),") = []) \/
   (exists pre tag ident rest,
       str "  ONE_LINE(getinfo, 0), OBSOLETE(usefeature)," 
       = pre ++ tag ++ str "(" ++ ident ++ rest /\
       entry_line pre tag ident rest = true /\
       findall ROW (str "  ONE_LINE(getinfo, 0), OBSOLETE(usefeature),")
       = [(tag, ident)])).
Proof.
  split; [vm_compute; reflexivity|].
  apply (proj1 X5_one_row_per_line (str "  ONE_LINE(getinfo, 0), OBSOLETE(usefeature),")).
  vm_compute; reflexivity.
Defined.

(** X6. Stripping the captured text changes no row: white space after the
    last row, newlines included, is immaterial, and the output is made of the
    rows of the captured text as it stands. *)
Theorem X6_rstrip_immaterial :
  (forall t ws, forallb isspace ws = true -> findall ROW (t ++ ws) = findall ROW t) /\
  (forall t, findall ROW (rstrip t) = findall ROW t) /\
  (forall file contents table,
      captured contents = Some table ->
      run file (Readable contents)
      = (Returned tt,
         generated_by file ++ concat (map row_lines (findall ROW table)) ++ [nl])).
Proof.
  split; [|split].
  - intros t ws H. now apply findall_app_space.
  - exact findall_rstrip.
  - intros file contents table H.
    rewrite (run_located file contents table H). now rewrite findall_rstrip.
Qed.

Lemma X6_rstrip_immaterial_witness :
  findall ROW (str "  ONE_LINE(getinfo, 0)," ++ [chr " "; 9%N; nl; 13%N; 8195%N; nl])
  = findall ROW (str "  ONE_LINE(getinfo, 0),") /\
  run (str "gen.py") (Readable scenario_source)
  = (Returned tt,
     generated_by (str "gen.py")
     ++ concat (map row_lines (findall ROW scenario_table)) ++ [nl]).
Proof.
  split.
  - apply (proj1 X6_rstrip_immaterial). vm_compute. reflexivity.
  - apply (proj2 (proj2 X6_rstrip_immaterial)). vm_compute. reflexivity.
Defined.

(** X7. The rows of a text are the rows of its lines, one line after the
    other: a match never runs over a newline, and no line changes what
    another one gives. *)
Theorem X7_lines_independent :
  (forall a b, findall ROW (a ++ nl :: b) = findall ROW a ++ findall ROW b) /\
  (forall ls, findall ROW (join_lines ls) = flat_map (findall ROW) ls).
Proof.
  split.
  - intros a b. exact (findall_lines ROW a b ROW_nl_free ROW_match_nil).
  - exact findall_join.
Qed.

(** X8. The output keeps its line structure whatever the table holds: after
    the header, every constant takes exactly one line and holds exactly two
    double quotes, and every deprecation marker takes one more line; no
    captured name brings a newline or a quote of its own. *)
Theorem X8_line_structure (file contents table : text) :
  captured contents = Some table ->
  let rows := findall ROW (rstrip table) in
  let obsolete := filter (fun row => text_eqb (fst row) (str "OBSOLETE")) rows in
  let out := snd (run file (Readable contents)) in
  count_occ N.eq_dec out nl
  = count_occ N.eq_dec file nl + 3 + length rows + length obsolete /\
  count_occ N.eq_dec out dquote
  = count_occ N.eq_dec file dquote + 2 * length rows.
Proof.
  intros H rows obsolete out.
  assert (Forall (fun row => forallb (accepts IDENT) (snd row) = true) rows) as Hrows.
  { eapply Forall_impl; [|apply ROW_findall_rows]. now intros row (_ & _ & Hid). }
  pose proof (count_rows nl rows eq_refl eq_refl Hrows) as Hnl.
  pose proof (count_rows dquote rows eq_refl eq_refl Hrows) as Hdq.
  change (count_occ N.eq_dec deprecated_marker nl) with 1 in Hnl.
  change (count_occ N.eq_dec (java_const [] []) nl) with 1 in Hnl.
  change (count_occ N.eq_dec deprecated_marker dquote) with 0 in Hdq.
  change (count_occ N.eq_dec (java_const [] []) dquote) with 2 in Hdq.
  unfold out. rewrite (run_located file contents table H). cbn [snd].
  fold rows. unfold generated_by. rewrite !count_occ_app.
  change (count_occ N.eq_dec (str "    // generated by ") nl) with 0.
  change (count_occ N.eq_dec (str "    // generated by ") dquote) with 0.
  change (count_occ N.eq_dec [nl] nl) with 1.
  change (count_occ N.eq_dec [nl] dquote) with 0.
  unfold text, char in *. fold obsolete in Hnl, Hdq. rewrite Hnl, Hdq.
  split; lia.
Qed.

Lemma X8_line_structure_witness :
  captured tor_source = Some tor_table /\
  count_occ N.eq_dec (snd (run (str "gen.py") (Readable tor_source))) nl = 7 /\
  count_occ N.eq_dec (snd (run (str "gen.py") (Readable tor_source))) dquote = 6.
Proof.
  split; [vm_compute; reflexivity|].
  destruct (X8_line_structure (str "gen.py") tor_source tor_table) as (Hnl & Hdq);
    [vm_compute; reflexivity|].
  split; [rewrite Hnl | rewrite Hdq]; vm_compute; reflexivity.
Defined.

(** X9. Whenever the search succeeds, the captured text is not empty and
    holds no closing brace, and the file reads: some text, the declaration,
    white space, the equals sign, white space, the opening brace, newlines,
    the captured text, a closing brace, and the rest. *)
Theorem X9_captured_text (contents table : text) :
  captured contents = Some table ->
  table <> [] /\
  forallb (accepts NOT_BRACE) table = true /\
  exists above ws1 ws2 nls below,
    contents = source_with_table above ws1 ws2 (nls ++ table) below /\
    forallb isspace ws1 = true /\ forallb isspace ws2 = true /\
    forallb (accepts NEWLINE) nls = true.
Proof.
  intros H.
  destruct (captured_located contents table H)
    as (above & ws1 & ws2 & nls & below & Hc & H1 & H2 & Hnls & Hne & Htable).
  split; [exact Hne|]. split; [exact Htable|].
  exists above, ws1, ws2, nls, below. repeat split; try assumption.
  rewrite Hc. unfold source_with_table, DECLARATION. now rewrite <- !app_assoc.
Qed.

Lemma X9_captured_text_witness :
  captured tor_source = Some tor_table /\
  tor_table <> [] /\ forallb (accepts NOT_BRACE) tor_table = true.
Proof.
  split; [vm_compute; reflexivity|].
  destruct (X9_captured_text tor_source tor_table) as (Hne & Hb & _);
    [vm_compute; reflexivity|].
  split; assumption.
Defined.
